(** * Entry reconciliation engine of external-dns-management

    A shallow embedding of the entry handling code of package [provider]
    (EntryPremise, EntryVersion, reference completion, validation, the
    [Setup] state derivation, Entry and EntryList), with the properties of
    its specification stated and proved over the embedding.

    Conventions of the embedding:
    - a Go [string] is a [string], the list of its bytes; an [int64] is a
      [Z], and the one product of the modelled code that can overflow wraps
      around ([mul64]); a [*string] or [*int64] is an [option];
    - a Go slice that is tested against [nil] is an [option (list _)];
    - calls of the logger have no effect on the program and are left out;
      events sent to the object store are recorded in the world;
    - a call that does not return is the result [Timeout] of a function with
      fuel; a nil dereference is the result [Panic]. *)

From Stdlib Require Import ZArith Ascii String List Sorting.Sorted Sorting.Permutation Lia Bool.
From Stdlib Require OrderedTypeEx.
From stdpp Require Import base option gmap strings sorting pretty.

Import ListNotations.
Local Open Scope string_scope.
Local Open Scope Z_scope.

(* ===================================================================== *)
(** ** Results of Go calls *)
(* ===================================================================== *)

(** The result of running a Go function: a value, a run-time panic, or no
    result within the given recursion depth. *)
Inductive Res (A : Type) : Type :=
| Val (a : A)
| Panic (msg : string)
| Timeout.
Arguments Val {A} a.
Arguments Panic {A} msg.
Arguments Timeout {A}.

Definition rbind {A B : Type} (r : Res A) (k : A -> Res B) : Res B :=
  match r with
  | Val a => k a
  | Panic m => Panic m
  | Timeout => Timeout
  end.

Notation "'let*' x ':=' c 'in' k" := (rbind c (fun x => k))
  (at level 10, x pattern, c at level 100, k at level 200).

(** A Go [error] value: [None] is [nil]. *)
Definition error := option string.

(* ===================================================================== *)
(** ** Helpers of the Go libraries *)
(* ===================================================================== *)

(** [strings.Join] *)
Fixpoint Join (elems : list string) (sep : string) : string :=
  match elems with
  | [] => ""
  | [x] => x
  | x :: rest => x ++ sep ++ Join rest sep
  end.

(** [strings.HasPrefix] *)
Definition HasPrefix (s p : string) : bool := String.prefix p s.

(** The white space that [strings.TrimSpace] removes is the one of
    [unicode.IsSpace]. In one byte: tab, line feed, vertical tab, form feed,
    carriage return and space. *)
Definition isSpace (c : ascii) : bool :=
  let n := nat_of_ascii c in
  ((9 <=? n) && (n <=? 13) || (n =? 32))%nat.

(** In two bytes of UTF-8: U+0085 (C2 85) and U+00A0 (C2 A0). *)
Definition isSpace2 (c d : ascii) : bool :=
  let c := nat_of_ascii c in
  let d := nat_of_ascii d in
  ((c =? 194) && ((d =? 133) || (d =? 160)))%nat.

(** In three bytes of UTF-8: U+1680 (E1 9A 80), U+2000 to U+200A
    (E2 80 80 to E2 80 8A), U+2028, U+2029 and U+202F (E2 80 A8, A9, AF),
    U+205F (E2 81 9F) and U+3000 (E3 80 80). No other rune is white space,
    and a rune is only decoded from its shortest encoding. *)
Definition isSpace3 (c d e : ascii) : bool :=
  let c := nat_of_ascii c in
  let d := nat_of_ascii d in
  let e := nat_of_ascii e in
  ((c =? 225) && (d =? 154) && (e =? 128)
   || (c =? 226) && (d =? 128)
      && ((128 <=? e) && (e <=? 138) || (e =? 168) || (e =? 169) || (e =? 175))
   || (c =? 226) && (d =? 129) && (e =? 159)
   || (c =? 227) && (d =? 128) && (e =? 128))%nat.

(** [strings.TrimLeftFunc(s, unicode.IsSpace)]: the runes are decoded from
    the front; a byte that starts no white space ends the loop. *)
Fixpoint TrimLeft (s : string) : string :=
  match s with
  | EmptyString => EmptyString
  | String c r =>
      if isSpace c then TrimLeft r
      else
        match r with
        | String d r2 =>
            if isSpace2 c d then TrimLeft r2
            else
              match r2 with
              | String e r3 => if isSpace3 c d e then TrimLeft r3 else s
              | EmptyString => s
              end
        | EmptyString => s
        end
  end.

(** The loop of [strings.TrimRightFunc(s, unicode.IsSpace)] on the bytes of
    the string in reverse order: the last rune is white space exactly when
    the string ends with the encoding of a white space, since the bytes
    after the first one of an encoding start no rune. *)
Fixpoint TrimRight_rev (s : string) : string :=
  match s with
  | EmptyString => EmptyString
  | String e r =>
      if isSpace e then TrimRight_rev r
      else
        match r with
        | String d r2 =>
            if isSpace2 d e then TrimRight_rev r2
            else
              match r2 with
              | String c r3 => if isSpace3 c d e then TrimRight_rev r3 else s
              | EmptyString => s
              end
        | EmptyString => s
        end
  end.

Definition TrimRight (s : string) : string := String.rev (TrimRight_rev (String.rev s)).

(** [strings.TrimSpace]: its loops over the bytes below 128 remove white
    space of one byte and hand over to [TrimFunc] and [TrimRightFunc] at
    the first other byte, which gives the same result as trimming the runes
    on the left and then on the right. *)
Definition TrimSpace (s : string) : string := TrimRight (TrimLeft s).

(** [strings.Compare(a, b) < 0] *)
Definition CompareLt (a b : string) : bool :=
  match String.compare a b with Lt => true | _ => false end.

(** [utils.StringValue]: the string behind a pointer, [""] for [nil]. *)
Definition StringValue (p : option string) : string := default "" p.

(** [utils.IsEmptyString]: [nil] or pointing to [""]. *)
Definition IsEmptyString (p : option string) : bool :=
  match p with
  | None => true
  | Some s => String.eqb s ""
  end.

(** [utils.Int64Value] *)
Definition Int64Value (p : option Z) (def : Z) : Z := default def p.

(** [utils.Int64Equal]: both [nil], or both set to the same number. *)
Definition Int64Equal (a b : option Z) : bool :=
  match a, b with
  | None, None => true
  | Some x, Some y => x =? y
  | _, _ => false
  end.

(** [append(s, x)] *)
Definition append {A : Type} (s : list A) (x : A) : list A := (s ++ [x])%list.

(** Length of a slice; a [nil] slice has length 0 and ranges over nothing. *)
Definition slice (A : Type) := option (list A).
Definition elems {A : Type} (s : slice A) : list A := default [] s.
Definition len {A : Type} (s : slice A) : Z := Z.of_nat (length (elems s)).
Definition isNil {A : Type} (s : slice A) : bool :=
  match s with None => true | Some _ => false end.

(* ===================================================================== *)
(** ** Object names and providers *)
(* ===================================================================== *)

(** [resources.ObjectName]: a namespace and a name, printed as
    [namespace/name]. *)
Record ObjectName := mkObjectName { Namespace : string; Name : string }.

Definition ObjectName_String (n : ObjectName) : string :=
  Namespace n ++ "/" ++ Name n.

Global Instance ObjectName_eq_dec : EqDecision ObjectName.
Proof. solve_decision. Defined.

(** A [DNSProvider] is used through an interface value: it is compared by
    identity ([paddr], the address of the provider state behind it) and
    asked for its object name, default TTL and validity. *)
Record DNSProvider := mkDNSProvider {
  paddr : nat;
  p_ObjectName : ObjectName;
  p_DefaultTTL : Z;
  p_IsValid : bool;
}.

(** [a == b] on two [DNSProvider] interface values ([None] is [nil]). *)
Definition provider_eqb (a b : option DNSProvider) : bool :=
  match a, b with
  | None, None => true
  | Some x, Some y => Nat.eqb (paddr x) (paddr y)
  | _, _ => false
  end.

Definition Provider (p : option DNSProvider) : string :=
  match p with
  | None => "<none>"
  | Some p => ObjectName_String (p_ObjectName p)
  end.

(* ===================================================================== *)
(** ** EntryPremise *)
(* ===================================================================== *)

Record EntryPremise := mkEntryPremise {
  ptypes : gset string;
  ptype : string;
  provider : option DNSProvider;
  fallback : option DNSProvider;
  zoneid : string;
  (* non-identifying fields *)
  zonedomain : string;
}.

Definition Match (this p : EntryPremise) : bool :=
  String.eqb (ptype this) (ptype p)
  && provider_eqb (provider this) (provider p)
  && String.eqb (zoneid this) (zoneid p)
  && provider_eqb (fallback this) (fallback p).

Definition NotifyChange (this p : EntryPremise) : string :=
  let r := [] in
  let r := if negb (String.eqb (ptype this) (ptype p))
           then append r ("provider type (" ++ ptype this ++ " -> " ++ ptype p ++ ")")
           else r in
  let r := if negb (provider_eqb (provider this) (provider p))
           then append r ("provider (" ++ Provider (provider this) ++ " -> " ++ Provider (provider p) ++ ")")
           else r in
  let r := if negb (String.eqb (zoneid this) (zoneid p))
           then append r ("zone (" ++ zoneid this ++ " -> " ++ zoneid p ++ ")")
           else r in
  let r := if negb (provider_eqb (fallback this) (fallback p))
           then append r ("fallback (" ++ Provider (fallback this) ++ " -> " ++ Provider (fallback p) ++ ")")
           else r in
  if (length r =? 0)%nat then ""
  else "premise changed: " ++ Join r ", ".

(** The four identifying fields of a premise, in the order in which
    [NotifyChange] reports them. *)
Inductive PremiseField := FProviderType | FProvider | FZone | FFallback.

Definition field_differs (this p : EntryPremise) (f : PremiseField) : bool :=
  match f with
  | FProviderType => negb (String.eqb (ptype this) (ptype p))
  | FProvider => negb (provider_eqb (provider this) (provider p))
  | FZone => negb (String.eqb (zoneid this) (zoneid p))
  | FFallback => negb (provider_eqb (fallback this) (fallback p))
  end.

Definition field_change (this p : EntryPremise) (f : PremiseField) : string :=
  match f with
  | FProviderType => "provider type (" ++ ptype this ++ " -> " ++ ptype p ++ ")"
  | FProvider => "provider (" ++ Provider (provider this) ++ " -> " ++ Provider (provider p) ++ ")"
  | FZone => "zone (" ++ zoneid this ++ " -> " ++ zoneid p ++ ")"
  | FFallback => "fallback (" ++ Provider (fallback this) ++ " -> " ++ Provider (fallback p) ++ ")"
  end.

(** The fields in which two premises differ. *)
Definition changed_fields (this p : EntryPremise) : list PremiseField :=
  List.filter (field_differs this p) [FProviderType; FProvider; FZone; FFallback].

Definition with_zonedomain (p : EntryPremise) (d : string) : EntryPremise :=
  {| ptypes := ptypes p; ptype := ptype p; provider := provider p;
     fallback := fallback p; zoneid := zoneid p; zonedomain := d |}.

(* ===================================================================== *)
(** ** Targets *)
(* ===================================================================== *)

(** The record kinds [dns.RS_A], [dns.RS_AAAA], [dns.RS_CNAME] and
    [dns.RS_TXT]. *)
Inductive RecordType := RS_A | RS_AAAA | RS_CNAME | RS_TXT.

Global Instance RecordType_eq_dec : EqDecision RecordType.
Proof. solve_decision. Defined.

Definition RecordType_String (t : RecordType) : string :=
  match t with
  | RS_A => "A"
  | RS_AAAA => "AAAA"
  | RS_CNAME => "CNAME"
  | RS_TXT => "TXT"
  end.

(** Modelled from the spec: the type [Target] of package [dnsutils] is not
    part of the sources at hand. A target is one resolved record value: a
    record kind, a host, address or text value, and a TTL. *)
Record Target := NewTarget {
  GetRecordType : RecordType;
  GetHostName : string;
  Target_GetTTL : Z;
}.

Definition Targets := list Target.

(** Modelled from the spec: [dnsutils.NewText], a target of kind TXT. *)
Definition NewText (t : string) (ttl : Z) : Target := NewTarget RS_TXT t ttl.

Definition Target_String (t : Target) : string :=
  RecordType_String (GetRecordType t) ++ "(" ++ GetHostName t ++ ")".

(** The value by which targets are compared. *)
Definition target_value (t : Target) : RecordType * string :=
  (GetRecordType t, GetHostName t).

(** Modelled from the spec: [Targets.Has] of package [dnsutils]; targets
    are compared by value for de-duplication. *)
Definition Has (this : Targets) (target : Target) : bool :=
  existsb (fun t => bool_decide (target_value t = target_value target)) this.

(** Modelled from the spec: [Targets.DifferFrom] of package [dnsutils]; two
    collections differ when their sizes differ or when a target of the
    first is not in the second. *)
Definition DifferFrom (this targets : Targets) : bool :=
  negb (length this =? length targets)%nat
  || negb (forallb (Has targets) this).

(** The double quote character, and the [%q] verb of [fmt] (the escaping of
    special characters inside the string is not modelled). *)
Definition dquote : string := String (ascii_of_nat 34) EmptyString.
Definition quote (s : string) : string := dquote ++ s ++ dquote.

(* ===================================================================== *)
(** ** Objects and their status *)
(* ===================================================================== *)

(** [api.STATE_*] and [api.DNSLockKind] *)
Definition STATE_PENDING := "Pending".
Definition STATE_ERROR := "Error".
Definition STATE_INVALID := "Invalid".
Definition STATE_STALE := "Stale".
Definition STATE_READY := "Ready".
Definition STATE_DELETING := "Deleting".
Definition DNSLockKind := "DNSLock".

Definition MSG_PRESERVED := "errorneous entry preserved in provider".

(** [api.DNSBaseStatus], with the acknowledged targets of the entry status
    ([AcknowledgeTargets]) next to it. Times are numbers. *)
Record DNSBaseStatus := mkStatus {
  s_ObservedGeneration : Z;
  s_State : string;
  s_Message : option string;
  s_LastUptimeTime : option Z;
  s_ProviderType : option string;
  s_Provider : option string;
  s_Zone : option string;
  s_TTL : option Z;
  s_Targets : slice string;
}.

Definition set_ObservedGeneration (v : Z) (s : DNSBaseStatus) :=
  mkStatus v (s_State s) (s_Message s) (s_LastUptimeTime s) (s_ProviderType s)
           (s_Provider s) (s_Zone s) (s_TTL s) (s_Targets s).
Definition set_State (v : string) (s : DNSBaseStatus) :=
  mkStatus (s_ObservedGeneration s) v (s_Message s) (s_LastUptimeTime s) (s_ProviderType s)
           (s_Provider s) (s_Zone s) (s_TTL s) (s_Targets s).
Definition set_Message (v : option string) (s : DNSBaseStatus) :=
  mkStatus (s_ObservedGeneration s) (s_State s) v (s_LastUptimeTime s) (s_ProviderType s)
           (s_Provider s) (s_Zone s) (s_TTL s) (s_Targets s).
Definition set_LastUptimeTime (v : option Z) (s : DNSBaseStatus) :=
  mkStatus (s_ObservedGeneration s) (s_State s) (s_Message s) v (s_ProviderType s)
           (s_Provider s) (s_Zone s) (s_TTL s) (s_Targets s).
Definition set_ProviderType (v : option string) (s : DNSBaseStatus) :=
  mkStatus (s_ObservedGeneration s) (s_State s) (s_Message s) (s_LastUptimeTime s) v
           (s_Provider s) (s_Zone s) (s_TTL s) (s_Targets s).
Definition set_Provider (v : option string) (s : DNSBaseStatus) :=
  mkStatus (s_ObservedGeneration s) (s_State s) (s_Message s) (s_LastUptimeTime s)
           (s_ProviderType s) v (s_Zone s) (s_TTL s) (s_Targets s).
Definition set_Zone (v : option string) (s : DNSBaseStatus) :=
  mkStatus (s_ObservedGeneration s) (s_State s) (s_Message s) (s_LastUptimeTime s)
           (s_ProviderType s) (s_Provider s) v (s_TTL s) (s_Targets s).
Definition set_TTL (v : option Z) (s : DNSBaseStatus) :=
  mkStatus (s_ObservedGeneration s) (s_State s) (s_Message s) (s_LastUptimeTime s)
           (s_ProviderType s) (s_Provider s) (s_Zone s) v (s_Targets s).
Definition set_Targets (v : slice string) (s : DNSBaseStatus) :=
  mkStatus (s_ObservedGeneration s) (s_State s) (s_Message s) (s_LastUptimeTime s)
           (s_ProviderType s) (s_Provider s) (s_Zone s) (s_TTL s) v.

(** [spec.reference] of an entry *)
Record EntryReference := mkRef { ref_Namespace : string; ref_Name : string }.

(** A DNS object as the engine sees it through [dnsutils.DNSSpecification]
    and [resources.Object]: its meta data, its specification and the status
    of this copy of the object. *)
Record DNSObject := mkObject {
  o_ObjectName : ObjectName;
  o_Kind : string;
  o_Generation : Z;
  o_CreationTimestamp : Z;
  o_IsDeleting : bool;
  o_RefreshTime : Z;
  o_DNSName : string;
  o_Targets : slice string;
  o_Text : slice string;
  o_TTL : option Z;
  o_OwnerId : option string;
  o_CNameLookupInterval : option Z;
  o_Reference : option EntryReference;
  BaseStatus : DNSBaseStatus;
}.

Definition set_BaseStatus (s : DNSBaseStatus) (o : DNSObject) : DNSObject :=
  mkObject (o_ObjectName o) (o_Kind o) (o_Generation o) (o_CreationTimestamp o)
           (o_IsDeleting o) (o_RefreshTime o) (o_DNSName o) (o_Targets o) (o_Text o)
           (o_TTL o) (o_OwnerId o) (o_CNameLookupInterval o) (o_Reference o) s.

(** Modelled from the spec: [AcknowledgeTargets] of an entry object is not
    part of the sources at hand. The targets of the status are the ordered
    list of host values; the call stores the list and tells whether that
    changed the status. *)
Definition list_string_eqb (a b : list string) : bool := bool_decide (a = b).

Definition AcknowledgeTargets (targets : slice string) (s : DNSBaseStatus) : DNSBaseStatus * bool :=
  if list_string_eqb (elems (s_Targets s)) (elems targets) then (s, false)
  else (set_Targets targets s, true).

(* ===================================================================== *)
(** ** utils.ModificationState *)
(* ===================================================================== *)

(** The [Assure...] methods store a value in a destination and record
    whether that changed it. Each is modelled by a function from the old
    destination to the new one and the modification flag. *)
Definition AssureStringValue (dst : string) (v : string) (modified : bool) : string * bool :=
  if String.eqb dst v then (dst, modified) else (v, true).

Definition AssureStringPtrValue (dst : option string) (v : string) (modified : bool)
  : option string * bool :=
  match dst with
  | Some d => if String.eqb d v then (dst, modified) else (Some v, true)
  | None => (Some v, true)
  end.

Definition AssureStringPtrPtr (dst : option string) (p : option string) (modified : bool)
  : option string * bool :=
  match dst, p with
  | None, None => (dst, modified)
  | Some d, Some v => if String.eqb d v then (dst, modified) else (p, true)
  | _, _ => (p, true)
  end.

Definition AssureInt64Value (dst : Z) (v : Z) (modified : bool) : Z * bool :=
  if dst =? v then (dst, modified) else (v, true).

Definition AssureInt64PtrPtr (dst : option Z) (p : option Z) (modified : bool)
  : option Z * bool :=
  if Int64Equal dst p then (dst, modified) else (p, true).

(* ===================================================================== *)
(** ** The controller state and its collaborators *)
(* ===================================================================== *)

Global Instance ObjectName_countable : Countable ObjectName.
Proof.
  refine (inj_countable' (fun n => (Namespace n, Name n))
                         (fun q => mkObjectName (fst q) (snd q)) _).
  intros []; reflexivity.
Defined.

(** An event sent to the object store for an object. *)
Record Event := mkEvent {
  ev_object : ObjectName;
  ev_type : string;
  ev_reason : string;
  ev_message : string;
}.

Definition EventTypeNormal := "Normal".
Definition EventTypeWarning := "Warning".

(** The answer of the object cache to [GetCached]. *)
Inductive Cached :=
| Found (o : DNSObject)
| NotFound
| CacheError (msg : string).

(** The result of [net.ParseIP] on a target: no address, an address with a
    4-byte form, an address with a 16-byte form only, or neither. *)
Inductive IPKind := NoIP | IPv4 | IPv6 | IPNeither.

(** A [net.IP] as [lookupHosts] uses it. *)
Record IP := mkIP { ip_String : string; ip_To4 : bool; ip_To16 : bool }.

(** [state]: what an entry reconciliation reads and changes outside of the
    entry itself. The first group are the collaborators (object cache,
    access control, owner cache, name validation, resolver, the formatting
    of [fmt.Sprintf] on string operands, clock, object store), given by
    their answers; the second group is changed by the
    reconciliation: the reference index, the finalizers held by objects and
    the events sent. *)
Record state := mkState {
  GetCached : ObjectName -> Cached;
  CheckAccessWithRealms : DNSObject -> DNSObject -> error;
  IsResponsibleFor : string -> bool;
  IsResponsiblePendingFor : string -> bool;
  ValidateDomainName : string -> error;
  ValidateSpecial : DNSObject -> error;
  ParseIP : string -> IPKind;
  LookupIP : string -> list IP + string;
  Sprintf : string -> list string -> string;
  Now : Z;
  store_error : error;
  finalizer_error : error;
  references : gmap ObjectName ObjectName;
  finalizers : gset ObjectName;
  events : list Event;
}.

Definition set_references (r : gmap ObjectName ObjectName) (s : state) : state :=
  mkState (GetCached s) (CheckAccessWithRealms s) (IsResponsibleFor s)
          (IsResponsiblePendingFor s) (ValidateDomainName s) (ValidateSpecial s)
          (ParseIP s) (LookupIP s) (Sprintf s) (Now s) (store_error s) (finalizer_error s)
          r (finalizers s) (events s).
Definition set_finalizers (f : gset ObjectName) (s : state) : state :=
  mkState (GetCached s) (CheckAccessWithRealms s) (IsResponsibleFor s)
          (IsResponsiblePendingFor s) (ValidateDomainName s) (ValidateSpecial s)
          (ParseIP s) (LookupIP s) (Sprintf s) (Now s) (store_error s) (finalizer_error s)
          (references s) f (events s).
Definition set_events (e : list Event) (s : state) : state :=
  mkState (GetCached s) (CheckAccessWithRealms s) (IsResponsibleFor s)
          (IsResponsiblePendingFor s) (ValidateDomainName s) (ValidateSpecial s)
          (ParseIP s) (LookupIP s) (Sprintf s) (Now s) (store_error s) (finalizer_error s)
          (references s) (finalizers s) e.

(** [state.references.AddRef] and [DelRef] *)
Definition AddRef (from to : ObjectName) (s : state) : state :=
  set_references (<[from := to]> (references s)) s.
Definition DelRef (from : ObjectName) (s : state) : state :=
  set_references (delete from (references s)) s.

(** [object.Event(type, reason, message)] *)
Definition ObjectEvent (o : DNSObject) (ty reason msg : string) (s : state) : state :=
  set_events (append (events s) (mkEvent (o_ObjectName o) ty reason msg)) s.

(** [state.RemoveFinalizer(object)]: the store either refuses with an
    error or the object no longer holds the finalizer. *)
Definition RemoveFinalizer (o : DNSObject) (s : state) : state * error :=
  match finalizer_error s with
  | Some e => (s, Some e)
  | None => (set_finalizers (finalizers s ∖ {[ o_ObjectName o ]}) s, None)
  end.

Record Config := mkConfig { RescheduleDelay : Z; Ident : string }.

(** The results of package [reconcile]. [RepeatOnError] and [DelayOnError]
    succeed on a [nil] error. *)
Inductive ReconcileStatus :=
| Succeeded
| RescheduleAfter (delay : Z)
| Delay (err : error)
| Failed (err : string)
| Repeat (err : string)
| Recheck (err : string) (interval : Z).

Definition RepeatOnError (err : error) : ReconcileStatus :=
  match err with None => Succeeded | Some e => Repeat e end.
Definition DelayOnError (err : error) : ReconcileStatus :=
  match err with None => Succeeded | Some e => Delay (Some e) end.

(* ===================================================================== *)
(** ** EntryVersion *)
(* ===================================================================== *)

Record EntryVersion := mkEntryVersion {
  object : DNSObject;
  providername : option ObjectName;
  dnsname : string;
  targets : Targets;
  mappings : list (string * list string);
  warnings : list string;
  status : DNSBaseStatus;
  interval : Z;
  responsible : bool;
  valid : bool;
  duplicate : bool;
  obsolete : bool;
}.

Definition set_object (v : DNSObject) (e : EntryVersion) :=
  mkEntryVersion v (providername e) (dnsname e) (targets e) (mappings e) (warnings e)
                 (status e) (interval e) (responsible e) (valid e) (duplicate e) (obsolete e).
Definition set_providername (v : option ObjectName) (e : EntryVersion) :=
  mkEntryVersion (object e) v (dnsname e) (targets e) (mappings e) (warnings e)
                 (status e) (interval e) (responsible e) (valid e) (duplicate e) (obsolete e).
Definition set_targets (v : Targets) (e : EntryVersion) :=
  mkEntryVersion (object e) (providername e) (dnsname e) v (mappings e) (warnings e)
                 (status e) (interval e) (responsible e) (valid e) (duplicate e) (obsolete e).
Definition set_warnings (v : list string) (e : EntryVersion) :=
  mkEntryVersion (object e) (providername e) (dnsname e) (targets e) (mappings e) v
                 (status e) (interval e) (responsible e) (valid e) (duplicate e) (obsolete e).
Definition set_status (v : DNSBaseStatus) (e : EntryVersion) :=
  mkEntryVersion (object e) (providername e) (dnsname e) (targets e) (mappings e) (warnings e)
                 v (interval e) (responsible e) (valid e) (duplicate e) (obsolete e).
Definition set_interval (v : Z) (e : EntryVersion) :=
  mkEntryVersion (object e) (providername e) (dnsname e) (targets e) (mappings e) (warnings e)
                 (status e) v (responsible e) (valid e) (duplicate e) (obsolete e).
Definition set_responsible (v : bool) (e : EntryVersion) :=
  mkEntryVersion (object e) (providername e) (dnsname e) (targets e) (mappings e) (warnings e)
                 (status e) (interval e) v (valid e) (duplicate e) (obsolete e).
Definition set_valid (v : bool) (e : EntryVersion) :=
  mkEntryVersion (object e) (providername e) (dnsname e) (targets e) (mappings e) (warnings e)
                 (status e) (interval e) (responsible e) v (duplicate e) (obsolete e).

(** [this.status.F = v] for a field [F] of the status *)
Definition upd_status (f : DNSBaseStatus -> DNSBaseStatus) (e : EntryVersion) : EntryVersion :=
  set_status (f (status e)) e.

Definition Kind (this : EntryVersion) : string := o_Kind (object this).
Definition IsValid (this : EntryVersion) : bool := valid this.
Definition IsDeleting (this : EntryVersion) : bool := o_IsDeleting (object this).
Definition Message (this : EntryVersion) : string := StringValue (s_Message (status this)).
Definition ZoneId (this : EntryVersion) : string := StringValue (s_Zone (status this)).
Definition State (this : EntryVersion) : string := s_State (status this).
Definition ObjectName_of (this : EntryVersion) : ObjectName := o_ObjectName (object this).
Definition DNSName (this : EntryVersion) : string := dnsname this.
Definition TTL (this : EntryVersion) : Z := Int64Value (s_TTL (status this)) 0.
Definition Interval (this : EntryVersion) : Z := interval this.
Definition IsResponsible (this : EntryVersion) : bool := responsible this.
Definition ProviderType (this : EntryVersion) : string := StringValue (s_ProviderType (status this)).
Definition OwnerId (this : EntryVersion) : string :=
  match o_OwnerId (object this) with
  | Some id => id
  | None => ""
  end.

Record ZonedDNSName := mkZonedDNSName { ZoneID : string; zn_DNSName : string }.

Global Instance ZonedDNSName_eq_dec : EqDecision ZonedDNSName.
Proof. solve_decision. Defined.

Definition ZonedDNSName_of (this : EntryVersion) : ZonedDNSName :=
  mkZonedDNSName (ZoneId this) (dnsname this).

Definition NewEntryVersion (obj : DNSObject) (old : option EntryVersion) : EntryVersion :=
  mkEntryVersion obj None (o_DNSName obj) [] [] []
                 (match old with
                  | Some o => status o
                  | None => BaseStatus obj
                  end)
                 0 false false false false.

(* ===================================================================== *)
(** ** Reference completion *)
(* ===================================================================== *)

(** [dnsSpecModification]: the specification of an object with the values
    that reference completion took from the referenced entry. The embedded
    specification is always the object that declares the reference. *)
Record dnsSpecModification := mkMod {
  mod_DNSSpecification : DNSObject;
  mod_targets : slice string;
  mod_text : slice string;
  mod_ttl : option Z;
  mod_ownerid : option string;
  mod_lookup : option Z;
}.

Definition dnsSpecModification_GetTargets (this : dnsSpecModification) : slice string :=
  if negb (isNil (mod_targets this)) then mod_targets this
  else o_Targets (mod_DNSSpecification this).

Definition dnsSpecModification_GetText (this : dnsSpecModification) : slice string :=
  if negb (isNil (mod_text this)) then mod_text this
  else o_Text (mod_DNSSpecification this).

(** [GetOwnerId], [GetCNameLookupInterval] and [GetTTL] call themselves when
    the value is not set; [fuel] bounds the depth of the calls. *)
Fixpoint dnsSpecModification_GetOwnerId (fuel : nat) (this : dnsSpecModification)
  : Res (option string) :=
  match fuel with
  | O => Timeout
  | S fuel =>
      match mod_ownerid this with
      | Some v => Val (Some v)
      | None => dnsSpecModification_GetOwnerId fuel this
      end
  end.

Fixpoint dnsSpecModification_GetCNameLookupInterval (fuel : nat) (this : dnsSpecModification)
  : Res (option Z) :=
  match fuel with
  | O => Timeout
  | S fuel =>
      match mod_lookup this with
      | Some v => Val (Some v)
      | None => dnsSpecModification_GetCNameLookupInterval fuel this
      end
  end.

Fixpoint dnsSpecModification_GetTTL (fuel : nat) (this : dnsSpecModification)
  : Res (option Z) :=
  match fuel with
  | O => Timeout
  | S fuel =>
      match mod_ttl this with
      | Some v => Val (Some v)
      | None => dnsSpecModification_GetTTL fuel this
      end
  end.

Definition IsModified (this : dnsSpecModification) : bool :=
  negb (isNil (mod_targets this)) || negb (isNil (mod_text this))
  || bool_decide (mod_ownerid this <> None) || bool_decide (mod_lookup this <> None)
  || bool_decide (mod_ttl this <> None).

(** A value of the interface [dnsutils.DNSSpecification]: an object, or a
    modification made by reference completion. *)
Inductive DNSSpecification :=
| SpecObject (o : DNSObject)
| SpecMod (m : dnsSpecModification).

Definition GetTargets (s : DNSSpecification) : slice string :=
  match s with
  | SpecObject o => o_Targets o
  | SpecMod m => dnsSpecModification_GetTargets m
  end.

Definition GetText (s : DNSSpecification) : slice string :=
  match s with
  | SpecObject o => o_Text o
  | SpecMod m => dnsSpecModification_GetText m
  end.

Definition GetOwnerId (fuel : nat) (s : DNSSpecification) : Res (option string) :=
  match s with
  | SpecObject o => Val (o_OwnerId o)
  | SpecMod m => dnsSpecModification_GetOwnerId fuel m
  end.

Definition GetCNameLookupInterval (fuel : nat) (s : DNSSpecification) : Res (option Z) :=
  match s with
  | SpecObject o => Val (o_CNameLookupInterval o)
  | SpecMod m => dnsSpecModification_GetCNameLookupInterval fuel m
  end.

Definition GetTTL (fuel : nat) (s : DNSSpecification) : Res (option Z) :=
  match s with
  | SpecObject o => Val (o_TTL o)
  | SpecMod m => dnsSpecModification_GetTTL fuel m
  end.

(** A method call on an interface value that may be [nil]. *)
Definition deref {A : Type} (s : option A) : Res A :=
  match s with
  | Some a => Val a
  | None => Panic "invalid memory address or nil pointer dereference"
  end.

(** [complete] returns the completed specification or an error; it follows
    references from entry to entry, [fuel] bounds the number of entries. In
    the code the specification [spec] is always the one of [object]. *)
Fixpoint complete (fuel : nat) (st : state) (spec : DNSObject) (obj : DNSObject)
         (prefix : string) : Res (state * (DNSSpecification + string)) :=
  match fuel with
  | O => Timeout
  | S fuel =>
      match o_Reference spec with
      | Some ref =>
          if negb (String.eqb (ref_Name ref) "") then
            let ns := if String.eqb (ref_Namespace ref) ""
                      then Namespace (o_ObjectName obj) else ref_Namespace ref in
            let dnsref := mkObjectName ns (ref_Name ref) in
            let cur := o_ObjectName obj in
            let st := AddRef cur dnsref st in
            match GetCached st dnsref with
            | NotFound =>
                Val (st, inr ("entry reference " ++ prefix ++ quote (ObjectName_String dnsref)
                              ++ " not found"))
            | CacheError e => Val (st, inr e)
            | Found ref =>
                match CheckAccessWithRealms st obj ref with
                | Some e => Val (st, inr (prefix ++ e))
                | None =>
                    let* r := complete fuel st ref ref
                                (prefix ++ ObjectName_String dnsref ++ "->") in
                    let '(st, r) := r in
                    match r with
                    | inr e => Val (st, inr e)
                    | inl rspec =>
                        if negb (isNil (o_Targets spec)) then
                          Val (st, inr (prefix ++ "targets specified together with entry reference"))
                        else if negb (isNil (o_Text spec)) then
                          Val (st, inr (prefix ++ "text specified together with entry reference"))
                        else
                          let m_targets := GetTargets rspec in
                          let m_text := GetText rspec in
                          let* m_ttl :=
                            match o_TTL spec with
                            | None => GetTTL fuel rspec
                            | Some _ => Val None
                            end in
                          let* m_ownerid :=
                            match o_OwnerId spec with
                            | None => GetOwnerId fuel rspec
                            | Some _ => Val None
                            end in
                          let* m_lookup :=
                            match o_CNameLookupInterval spec with
                            | None => GetCNameLookupInterval fuel rspec
                            | Some _ => Val None
                            end in
                          let m := mkMod spec m_targets m_text m_ttl m_ownerid m_lookup in
                          if IsModified m then Val (st, inl (SpecMod m))
                          else Val (st, inl (SpecObject spec))
                    end
                end
            end
          else Val (DelRef (o_ObjectName obj) st, inl (SpecObject spec))
      | None => Val (DelRef (o_ObjectName obj) st, inl (SpecObject spec))
      end
  end.

(* ===================================================================== *)
(** ** Validation *)
(* ===================================================================== *)

(** Modelled from the spec: [NewHostTargetFromEntryVersion] is in a file of
    the package that is not at hand. Target values are parsed into typed
    targets: an IPv4 address gives kind A, an IPv6 address kind AAAA, any
    other host name kind CNAME; the TTL is the one of the entry. *)
Definition NewHostTargetFromEntryVersion (st : state) (name : string) (entry : EntryVersion)
  : Target + string :=
  match ParseIP st name with
  | NoIP => inl (NewTarget RS_CNAME name (TTL entry))
  | IPv4 => inl (NewTarget RS_A name (TTL entry))
  | IPv6 => inl (NewTarget RS_AAAA name (TTL entry))
  | IPNeither => inr ("unexpected IP address (never ipv4 or ipv6): " ++ name)
  end.

(** The loop of [validate] over the targets of the specification, from
    target number [i] (counted from 0) on. *)
Fixpoint validate_targets (st : state) (entry : EntryVersion) (i : Z) (ts : list string)
         (targets : Targets) (warnings : list string) : Targets * list string * error :=
  match ts with
  | [] => (targets, warnings, None)
  | t :: ts =>
      if String.eqb (TrimSpace t) "" then
        (targets, warnings, Some ("target " ++ pretty (i + 1) ++ " must not be empty"))
      else
        match NewHostTargetFromEntryVersion st t entry with
        | inr e => (targets, warnings, Some e)
        | inl new =>
            if Has targets new then
              validate_targets st entry (i + 1) ts targets
                (append warnings ("dns entry " ++ quote (ObjectName_String (ObjectName_of entry))
                                  ++ " has duplicate target " ++ quote (Target_String new)))
            else
              validate_targets st entry (i + 1) ts (append targets new) warnings
        end
  end.

(** The loop of [validate] over the text values. *)
Fixpoint validate_text (entry : EntryVersion) (ts : list string)
         (targets : Targets) (warnings : list string) (tcnt : Z) : Targets * list string * Z :=
  match ts with
  | [] => (targets, warnings, tcnt)
  | t :: ts =>
      if String.eqb t "" then
        validate_text entry ts targets
          (append warnings ("dns entry " ++ quote (ObjectName_String (ObjectName_of entry))
                            ++ " has empty text")) tcnt
      else
        let new := NewText t (TTL entry) in
        if Has targets new then
          validate_text entry ts targets
            (append warnings ("dns entry " ++ quote (ObjectName_String (ObjectName_of entry))
                              ++ " has duplicate text " ++ quote (Target_String new))) tcnt
        else
          validate_text entry ts (append targets new) warnings (tcnt + 1)
  end.

(** The results [(effspec, targets, warnings, err)] of [validate]. *)
Definition Validation := (option DNSSpecification * Targets * list string * error)%type.

Definition validate (fuel : nat) (st : state) (entry : EntryVersion) (p : EntryPremise)
  : Res (state * Validation) :=
  let effspec := SpecObject (object entry) in
  let targets : Targets := [] in
  let warnings : list string := [] in
  let name := o_DNSName (object entry) in
  match ValidateDomainName st name with
  | Some e => Val (st, (Some effspec, targets, warnings, Some e))
  | None =>
  match ValidateSpecial st (object entry) with
  | Some e => Val (st, (Some effspec, targets, warnings, Some e))
  | None =>
  let* r := complete fuel st (object entry) (object entry) "" in
  let '(st, r) := r in
  match r with
  | inr e => Val (st, (None, targets, warnings, Some e))
  | inl effspec =>
  if String.eqb (zonedomain p) (dnsname entry) then
    Val (st, (Some effspec, targets, warnings,
              Some ("usage of dns name (" ++ zonedomain p
                    ++ ") identical to domain of hosted zone (" ++ zoneid p
                    ++ ") is not supported")))
  else if (0 <? len (GetTargets effspec)) && (0 <? len (GetText effspec)) then
    Val (st, (Some effspec, targets, warnings,
              Some "only Text or Targets possible: %!s(<nil>)"))
  else
  let* ttl := GetTTL fuel effspec in
  if match ttl with Some t => (t =? 0) || (t <? 0) | None => false end then
    Val (st, (Some effspec, targets, warnings,
              Some "TTL must be greater than zero: %!s(<nil>)"))
  else
  match validate_targets st entry 0 (elems (GetTargets effspec)) targets warnings with
  | (targets, warnings, Some e) => Val (st, (Some effspec, targets, warnings, Some e))
  | (targets, warnings, None) =>
  let '(targets, warnings, tcnt) :=
    validate_text entry (elems (GetText effspec)) targets warnings 0 in
  if (0 <? len (GetText effspec)) && (tcnt =? 0) then
    Val (st, (Some effspec, targets, warnings, Some "dns entry has only empty text"))
  else if (length targets =? 0)%nat then
    Val (st, (Some effspec, targets, warnings, Some "no target or text specified"))
  else
    Val (st, (Some effspec, targets, warnings, None))
  end end end end.

Definition validateOwner (st : state) (entry : EntryVersion) : error :=
  let ownerid := StringValue (o_OwnerId (object entry)) in
  if negb (String.eqb ownerid "") then
    if negb (String.eqb (Kind entry) DNSLockKind)
       && negb (IsResponsibleFor st ownerid)
       && negb (IsResponsiblePendingFor st ownerid)
    then Some ("unknown owner id '" ++ ownerid ++ "'")
    else None
  else None.

(* ===================================================================== *)
(** ** Status updates *)
(* ===================================================================== *)

(** The function handed to [ModifyStatus]: from the status in the data of
    the object and the entry version to the changed status, the changed
    entry version, the modification flag and an error. *)
Definition Modifier :=
  DNSBaseStatus -> EntryVersion -> DNSBaseStatus * EntryVersion * bool * error.

(** Modelled from the spec: [ModifyStatus] of the object store, with
    optimistic, diff-based semantics. The modifier runs on a copy of the
    data of the object and reports whether it changed anything; only then
    the status is written to the store, which answers with [store_error];
    a status that was written is the status of the object from then on. *)
Definition ModifyStatus (st : state) (this : EntryVersion) (f : Modifier)
  : EntryVersion * (bool * error) :=
  let '(data, this, modified, err) := f (BaseStatus (object this)) this in
  if negb modified then (this, (false, err))
  else
    match err with
    | Some e => (this, (modified, Some e))
    | None =>
        match store_error st with
        | Some e => (this, (modified, Some e))
        | None => (set_object (set_BaseStatus data (object this)) this, (modified, None))
        end
    end.

(** [dnsutils.SetLastUpdateTime] *)
Definition SetLastUpdateTime (st : state) (s : DNSBaseStatus) : DNSBaseStatus :=
  set_LastUptimeTime (Some (Now st)) s.

(** The modifier of [updateStatus]. *)
Definition updateStatus_f (state_ : string) (msg : string) : Modifier :=
  fun b this =>
    let '(v, modified) := AssureStringPtrPtr (s_ProviderType b)
                                             (s_ProviderType (status this)) false in
    let b := set_ProviderType v b in
    let '(v, modified) := AssureStringValue (s_State b) state_ modified in
    let b := set_State v b in
    let '(v, modified) := AssureStringPtrValue (s_Message b) msg modified in
    let b := set_Message v b in
    let '(v, modified) := AssureStringPtrPtr (s_Zone b)
                                             (s_Zone (status this)) modified in
    let b := set_Zone v b in
    let '(v, modified) := AssureStringPtrPtr (s_Provider b)
                                             (s_Provider (status this)) modified in
    let b := set_Provider v b in
    let '(v, modified) := AssureInt64PtrPtr (s_TTL b)
                                            (s_TTL (status this)) modified in
    let b := set_TTL v b in
    let '(b, modified) :=
      if negb (String.eqb state_ "")
         && (s_ObservedGeneration b <? o_Generation (object this))
      then
        let '(v, modified) := AssureInt64Value (s_ObservedGeneration b)
                                               (o_Generation (object this)) modified in
        (set_ObservedGeneration v b, modified)
      else (b, modified) in
    let '(b, modified) :=
      if String.eqb (StringValue (s_Provider (status this))) "" then
        let '(b, m) := AcknowledgeTargets None b in
        (b, modified || m)
      else (b, modified) in
    (b, this, modified, None).

(** [EntryVersion.updateStatus]. The message [msg] is [logmsg.Get()], the
    text that [dnsutils.NewLogMessage] made of the format and the operands of
    the call; the callers give it as [Sprintf st format operands]. *)
Definition updateStatus (st : state) (this : EntryVersion) (state_ : string) (msg : string)
  : state * EntryVersion * error :=
  let '(this, (_, err)) := ModifyStatus st this (updateStatus_f state_ msg) in
  let st := ObjectEvent (object this) EventTypeNormal "reconcile" msg st in
  (st, this, err).

Definition targetList (targets : Targets) : list string * string :=
  let '(list, msg, sep) :=
    fold_left (fun '(list, msg, sep) t =>
                 (append list (GetHostName t), msg ++ sep ++ Target_String t, ", "))
              targets ([], "update effective targets: [", "") in
  (list, msg ++ "]").

(** The modifier of [UpdateStatus]. *)
Definition UpdateStatus_f (st : state) (state_ : string) (msg : string) : Modifier :=
  fun b this =>
    if String.eqb state_ STATE_PENDING && negb (String.eqb (s_State b) "") then
      (b, this, false, None)
    else
      let modified := false in
      let '(b, modified) :=
        if String.eqb state_ STATE_READY then
          let '(v, modified) := AssureInt64PtrPtr (s_TTL b) (s_TTL (status this)) modified in
          let b := set_TTL v b in
          let '(list, _) := targetList (targets this) in
          let '(b, ack) := AcknowledgeTargets (Some list) b in
          let modified := if ack then true else modified in
          match s_Provider (status this) with
          | Some _ =>
              let '(v, modified) := AssureStringPtrPtr (s_Provider b)
                                                       (s_Provider (status this)) modified in
              (set_Provider v b, modified)
          | None => (b, modified)
          end
        else if negb (String.eqb state_ STATE_STALE) then
          let '(b, m) := AcknowledgeTargets None b in
          (b, modified || m)
        else (b, modified) in
      let '(v, modified) := AssureInt64Value (s_ObservedGeneration b)
                                             (o_Generation (object this)) modified in
      let b := set_ObservedGeneration v b in
      let '(b, this, modified) :=
        if negb (String.eqb (s_State (status this)) STATE_STALE
                 && String.eqb (s_State (status this)) state_) then
          let '(v, modified) := AssureStringPtrValue (s_Message b) msg modified in
          (set_Message v b, upd_status (set_Message (Some msg)) this, modified)
        else (b, this, modified) in
      let '(v, modified) := AssureStringValue (s_State b) state_ modified in
      let b := set_State v b in
      let this := upd_status (set_State state_) this in
      let b := if modified then SetLastUpdateTime st b else b in
      (b, this, modified, None).

Definition UpdateStatus (st : state) (this : EntryVersion) (state_ : string) (msg : string)
  : EntryVersion * (bool * error) :=
  ModifyStatus st this (UpdateStatus_f st state_ msg).

(** The modifier of [UpdateState]. *)
Definition UpdateState_f (st : state) (state_ : string) (msg : string) : Modifier :=
  fun b this =>
    let '(v, modified) := AssureStringPtrValue (s_Message b) msg false in
    let b := set_Message v b in
    let this := upd_status (set_Message (Some msg)) this in
    let '(v, modified) := AssureStringValue (s_State b) state_ modified in
    let b := set_State v b in
    let this := upd_status (set_State state_) this in
    let b := if modified then SetLastUpdateTime st b else b in
    (b, this, modified, None).

Definition UpdateState (st : state) (this : EntryVersion) (state_ : string) (msg : string)
  : EntryVersion * (bool * error) :=
  ModifyStatus st this (UpdateState_f st state_ msg).

(* ===================================================================== *)
(** ** Resolution of CNAME targets *)
(* ===================================================================== *)

Definition lookupHosts (st : state) (hostname : string) : (list string * list string) + string :=
  match LookupIP st hostname with
  | inr e => inr e
  | inl ips =>
      let '(ipv4addrs, ipv6addrs) :=
        fold_left (fun '(v4, v6) ip =>
                     if ip_To4 ip then (append v4 (ip_String ip), v6)
                     else if ip_To16 ip then (v4, append v6 (ip_String ip))
                     else (v4, v6))
                  ips ([], []) in
      if (length ipv4addrs =? 0)%nat && (length ipv6addrs =? 0)%nat then
        inr (hostname ++ " has no IPv4/IPv6 address (of "
             ++ pretty (Z.of_nat (length ips)) ++ " addresses)")
      else inl (ipv4addrs, ipv6addrs)
  end.

(** One of the two inner loops of [normalizeTargets]: every address that is
    not yet the host of a target of [result] is added with kind [ty]. *)
Definition add_addresses (ty : RecordType) (ttl : Z) (addrs : list string) (result : Targets)
  : Targets :=
  fold_left (fun result addr =>
               if existsb (fun old => String.eqb (GetHostName old) addr) result
               then result
               else append result (NewTarget ty addr ttl))
            addrs result.

Definition normalizeTargets (st : state) (obj : DNSObject) (targets : Targets)
  : state * (Targets * bool * bool) :=
  let multiCNAME :=
    (1 <? Z.of_nat (length targets))
    && match targets with
       | t0 :: _ => bool_decide (GetRecordType t0 = RS_CNAME)
       | [] => false
       end in
  if negb multiCNAME then (st, (targets, false, false))
  else
    let result : Targets := [] in
    if 11 <? Z.of_nat (length targets) then
      let w := "too many CNAME targets: " ++ pretty (Z.of_nat (length targets)) in
      (ObjectEvent obj EventTypeWarning "dnslookup restriction" w st, (result, true, false))
    else
      let '(st, result) :=
        fold_left (fun '(st, result) t =>
                     match lookupHosts st (GetHostName t) with
                     | inl (ipv4addrs, ipv6addrs) =>
                         let result := add_addresses RS_A (Target_GetTTL t) ipv4addrs result in
                         let result := add_addresses RS_AAAA (Target_GetTTL t) ipv6addrs result in
                         (st, result)
                     | inr err =>
                         let w := "cannot lookup '" ++ GetHostName t ++ "': " ++ err in
                         (ObjectEvent obj EventTypeNormal "dnslookup" w st, result)
                     end)
                  targets (st, result) in
      (st, (result, true, true)).

(* ===================================================================== *)
(** ** Setup: the state derivation of one reconciliation pass *)
(* ===================================================================== *)

(** [time.Second] as a [time.Duration]; durations and times are counted in
    nanoseconds. *)
Definition Second : Z := 1000000000.

(** The product of two [int64] values: it wraps around to the range from
    -2^63 to 2^63 - 1. *)
Definition mul64 (a b : Z) : Z := (a * b + 2 ^ 63) mod 2 ^ 64 - 2 ^ 63.

(** What [Setup] leaves behind: the state, the entry version and the
    result for the scheduler. *)
Definition SetupResult := (state * EntryVersion * ReconcileStatus)%type.

(** A part of a function body either returns from the function or goes on
    with the rest of the body. *)
Inductive Flow (R C : Type) : Type :=
| Return (r : R)
| Continue (c : C).
Arguments Return {R C} r.
Arguments Continue {R C} c.

(** [this.status.Provider = nil; this.status.ProviderType = nil;
    this.status.Zone = nil] *)
Definition clear_assignment (this : EntryVersion) : EntryVersion :=
  upd_status (set_Zone None)
    (upd_status (set_ProviderType None)
       (upd_status (set_Provider None) this)).

(** First part of [Setup], "handle type responsibility": up to the return
    for an entry without zone or provider type. *)
Definition Setup_type_responsibility (st : state) (this : EntryVersion) (p : EntryPremise)
           (err : error) (config : Config) : Flow SetupResult (state * EntryVersion) :=
  let this := set_valid false this in
  let this := set_responsible false this in
  let this :=
    if negb (IsEmptyString (s_ProviderType (BaseStatus (object this))))
       && String.eqb (ptype p) ""
    then (* other controller claimed responsibility? *)
      upd_status (set_ProviderType (s_ProviderType (BaseStatus (object this)))) this
    else this in
  let assigned : Flow SetupResult (state * EntryVersion) :=
    if IsEmptyString (s_ProviderType (status this))
       || (negb (String.eqb (zoneid p) "")
           && negb (String.eqb (StringValue (s_ProviderType (status this))) (ptype p)))
    then
      if String.eqb (zoneid p) "" then
        (* mark unassigned foreign entries as erroneous *)
        if Now st <? o_CreationTimestamp (object this) + RescheduleDelay config then
          let '(st, _) := RemoveFinalizer (object this) st in
          Return (st, this, RescheduleAfter (RescheduleDelay config))
        else
          let this := clear_assignment this in
          let msg := "No responsible provider found" in
          let msg := match err with
                     | Some e => msg ++ ": " ++ e
                     | None => msg
                     end in
          (* the message is the format of the log message, without operands *)
          let '(st, this, err) := updateStatus st this STATE_ERROR (Sprintf st msg []) in
          match err with
          | Some e => Return (st, this, Delay (Some e))
          | None => Continue (st, this)
          end
      else
        (* assign entry to actual type *)
        let this := upd_status (set_State STATE_PENDING) this in
        let this := upd_status (set_Message (Some "waiting for dns reconciliation")) this in
        Continue (st, this)
    else Continue (st, this) in
  match assigned with
  | Return r => Return r
  | Continue (st, this) =>
      let revoked : Flow SetupResult (state * EntryVersion) :=
        if String.eqb (zoneid p) ""
           && negb (IsEmptyString (s_ProviderType (status this)))
           && bool_decide (StringValue (s_ProviderType (status this)) ∈ ptypes p)
        then
          (* revoke assignment to actual type *)
          let oldType := StringValue (s_ProviderType (status this)) in
          let this := clear_assignment this in
          let '(st, this, err) :=
            updateStatus st this ""
              (Sprintf st "not valid for known provider anymore -> releasing provider type %s"
                       [oldType]) in
          match err with
          | Some e => Return (st, this, Delay (Some e))
          | None => Continue (st, this)
          end
        else Continue (st, this) in
      match revoked with
      | Return r => Return r
      | Continue (st, this) =>
          if String.eqb (zoneid p) "" || String.eqb (ptype p) "" then
            let '(st, ferr) := RemoveFinalizer (object this) st in
            Return (st, this, RepeatOnError ferr)
          else Continue (st, this)
      end
  end.

(** Responsibility is established: the zone, the provider type and the
    provider of the premise are put into the status of the entry version,
    with the TTL of the specification or else the default TTL of the
    provider. *)
Definition Setup_responsible (this : EntryVersion) (p : EntryPremise) : EntryVersion :=
  let spec := object this in
  let this := upd_status (set_Zone (Some (zoneid p))) this in
  let this := upd_status (set_ProviderType (Some (ptype p))) this in
  let this := set_responsible true this in
  match provider p with
  | Some pr =>
      let this := set_providername (Some (p_ObjectName pr)) this in
      let this := upd_status (set_Provider (Some (ObjectName_String (p_ObjectName pr)))) this in
      let this := upd_status (set_TTL (Some (p_DefaultTTL pr))) this in
      match o_TTL spec with
      | Some _ => upd_status (set_TTL (o_TTL spec)) this
      | None => this
      end
  | None =>
      let this := set_providername None this in
      let this := upd_status (set_Provider None) this in
      upd_status (set_TTL None) this
  end.

(** Second part of [Setup], "validate": responsibility is established, the
    owner and the specification are validated. It goes on with the
    effective specification, the targets and the warnings of [validate]. *)
Definition Setup_validate (fuel : nat) (st : state) (this : EntryVersion) (p : EntryPremise)
  : Res (Flow SetupResult
              (state * EntryVersion * option DNSSpecification * Targets * list string)) :=
  let this := Setup_responsible this p in
  match validateOwner st this with
  | Some verr =>
      let '(this, _) := UpdateStatus st this STATE_STALE verr in
      Val (Return (st, this, Failed verr))
  | None =>
      let* r := validate fuel st this p in
      let '(st, (spec, targets, warnings, verr)) := r in
      let* this :=
        match provider p with
        | Some _ =>
            let* s := deref spec in
            let* ttl := GetTTL fuel s in
            match ttl with
            | Some _ => Val (upd_status (set_TTL ttl) this)
            | None => Val this
            end
        | None => Val this
        end in
      match verr with
      | Some verr =>
          let '(this, _) := UpdateStatus st this STATE_INVALID verr in
          Val (Return (st, this, Failed verr))
      | None => Val (Continue (st, this, spec, targets, warnings))
      end
  end.

(** Third part of [Setup], "handle": the targets are normalized and the
    state of the entry version is derived. *)
Definition Setup_handle (fuel : nat) (st : state) (this : EntryVersion) (p : EntryPremise)
           (err : error) (spec : option DNSSpecification) (targets : Targets)
           (warnings : list string) : Res (Flow SetupResult (state * EntryVersion)) :=
  if IsDeleting this then
    let this := upd_status (set_State STATE_DELETING) this in
    let this := upd_status (set_Message (Some "entry is scheduled to be deleted")) this in
    let this := set_valid true this in
    Val (Continue (st, this))
  else
    let this := set_warnings warnings this in
    let '(st, (targets, multiCName, multiOk)) := normalizeTargets st (object this) targets in
    let* flow :=
      if multiCName then
        let this := set_interval 600 this in
        let* s := deref spec in
        let* iv := GetCNameLookupInterval fuel s in
        let this := match iv with
                    | Some v => if 0 <? v then set_interval v this else this
                    | None => this
                    end in
        if (length targets =? 0)%nat then
          let msg := "targets cannot be resolved to any valid IPv4 address" in
          let '(msg, this) :=
            if negb multiOk then ("too many targets", set_interval 84600 this)
            else (msg, this) in
          let verr := msg in
          let state_ := STATE_INVALID in
          (* if DNS lookup fails temporarily, go to state STALE *)
          let state_ :=
            if String.eqb (s_State (status this)) STATE_READY
               || String.eqb (s_State (status this)) STATE_STALE
            then STATE_STALE else state_ in
          let '(this, _) := UpdateStatus st this state_ verr in
          (* time.Duration(this.interval) * time.Second *)
          Val (Return (st, this, Recheck verr (mul64 (interval this) Second)))
        else Val (Continue this)
      else Val (Continue (set_interval 0 this)) in
    match flow with
    | Return r => Val (Return r)
    | Continue this =>
        let this := set_targets targets this in
        let* this :=
          match err with
          | Some e =>
              if negb (String.eqb (s_State (status this)) STATE_STALE) then
                let this :=
                  if String.eqb (s_State (status this)) STATE_READY
                     && match provider p with
                        | Some pr => negb (p_IsValid pr)
                        | None => false
                        end
                  then upd_status (set_State STATE_STALE) this
                  else upd_status (set_State STATE_ERROR) this in
                Val (upd_status (set_Message (Some e)) this)
              else
                let* m := deref (s_Message (status this)) in
                if HasPrefix m MSG_PRESERVED then
                  Val (upd_status (set_Message (Some (MSG_PRESERVED ++ ": " ++ e))) this)
                else
                  Val (upd_status (set_Message (Some e)) this)
          | None =>
              if String.eqb (zoneid p) "" then
                let this := upd_status (set_State STATE_ERROR) this in
                let this := upd_status (set_Provider None) this in
                Val (upd_status
                       (set_Message (Some ("no provider found for " ++ quote (dnsname this))))
                       this)
              else
                let* pr := deref (provider p) in
                if p_IsValid pr then Val (set_valid true this)
                else
                  let this := upd_status (set_State STATE_STALE) this in
                  Val (upd_status
                         (set_Message
                            (Some ("provider "
                                   ++ quote (ObjectName_String (p_ObjectName pr))
                                   ++ " not valid")))
                         this)
          end in
        let this :=
          if String.eqb (s_State (status this)) STATE_READY
             && negb (o_Generation (object this)
                      =? s_ObservedGeneration (BaseStatus (object this)))
          then upd_status (set_State STATE_PENDING) this
          else this in
        Val (Continue (st, this))
    end.

(** The modifier of the status update at the end of [Setup]. *)
Definition Setup_f (st : state) (p : EntryPremise) : Modifier :=
  fun b this =>
    let modified := false in
    let '(b, modified) :=
      if negb (String.eqb (zoneid p) "") then
        let '(v, modified) := AssureStringPtrValue (s_ProviderType b) (ptype p) modified in
        (set_ProviderType v b, modified)
      else (b, modified) in
    let '(v, modified) := AssureStringValue (s_State b) (s_State (status this)) modified in
    let b := set_State v b in
    let '(v, modified) := AssureStringPtrPtr (s_Message b) (s_Message (status this)) modified in
    let b := set_Message v b in
    let '(v, modified) := AssureStringPtrPtr (s_Zone b) (s_Zone (status this)) modified in
    let b := set_Zone v b in
    let '(v, modified) := AssureStringPtrPtr (s_Provider b) (s_Provider (status this)) modified in
    let b := set_Provider v b in
    let b := if modified then SetLastUpdateTime st b else b in
    (b, this, modified, None).

(** Last part of [Setup]: the derived status is written to the object,
    unless the entry is a lock entry. *)
Definition Setup_persist (st : state) (this : EntryVersion) (p : EntryPremise) (err : error)
  : SetupResult :=
  if negb (String.eqb (Kind this) DNSLockKind) then
    let '(this, (_, err)) := ModifyStatus st this (Setup_f st p) in
    (st, this, DelayOnError err)
  else (st, this, DelayOnError err).

(** [EntryVersion.Setup]. The arguments [op] and [old] of the code are only
    used for logging, or not at all. *)
Definition Setup (fuel : nat) (st : state) (this : EntryVersion) (p : EntryPremise)
           (err : error) (config : Config) : Res SetupResult :=
  match Setup_type_responsibility st this p err config with
  | Return r => Val r
  | Continue (st, this) =>
      let* v := Setup_validate fuel st this p in
      match v with
      | Return r => Val r
      | Continue (st, this, spec, targets, warnings) =>
          let* h := Setup_handle fuel st this p err spec targets warnings in
          match h with
          | Return r => Val r
          | Continue (st, this) => Val (Setup_persist st this p err)
          end
      end
  end.

(* ===================================================================== *)
(** ** Entry *)
(* ===================================================================== *)

(** An [Entry]. The lock is known by its identity; the embedded
    [*EntryVersion] is the current version. The back pointer to the
    controller state is left out: there is one controller state. *)
Record Entry := mkEntry {
  lock : nat;
  key : string;
  createdAt : Z;
  modified : bool;
  updateRequired : bool;
  activezone : string;
  version : EntryVersion;
}.

(** The entries and locks that were allocated: [Entry] values are used
    through pointers, an entry is the same entry when its address is. *)
Record Heap := mkHeap {
  cells : gmap nat Entry;
  locks : gset nat;
}.

(** [NewEntry]: a new entry at an unused address with a new lock. *)
Definition NewEntry (st : state) (h : Heap) (v : EntryVersion) : Heap * nat :=
  let l := fresh (locks h) in
  let a := fresh (dom (cells h)) in
  let e := {| lock := l;
              key := ObjectName_String (ObjectName_of v);
              version := v;
              modified := true;
              updateRequired := false;
              createdAt := Now st;
              activezone := StringValue (s_Zone (status v)) |} in
  (mkHeap (<[a := e]> (cells h)) ({[ l ]} ∪ locks h), a).

Definition IsModified_entry (this : Entry) : bool := modified this.
Definition CreatedAt (this : Entry) : Z := createdAt this.

Definition RequiresUpdateFor (this e : EntryVersion) : list string * bool :=
  let reasons : list string := [] in
  let reasons := if negb (String.eqb (dnsname this) (dnsname e))
                 then append reasons "dnsname changed" else reasons in
  let reasons := if negb (Int64Equal (s_TTL (status this)) (s_TTL (status e)))
                 then append reasons "ttl changed" else reasons in
  let reasons := if negb (Bool.eqb (valid this) (valid e))
                 then append reasons "validation state changed" else reasons in
  let reasons := if negb (String.eqb (ZoneId this) (ZoneId e))
                 then append reasons "zone changed" else reasons in
  let reasons := if negb (String.eqb (OwnerId this) (OwnerId e))
                 then append reasons "ownerid changed" else reasons in
  let reasons := if DifferFrom (targets this) (targets e)
                 then append reasons "targets changed" else reasons in
  let reasons := if negb (String.eqb (State this) (State e))
                 then if negb (String.eqb (State e) STATE_READY)
                      then append reasons "state changed" else reasons
                 else reasons in
  let reasons := if negb (Bool.eqb (obsolete this) (obsolete e))
                 then append reasons "provider responsibility changed" else reasons in
  if o_RefreshTime (object this) <? o_RefreshTime (object e)
  then (append reasons "refresh time changed", true)
  else (reasons, false).

(** The events that [Update] sends when the targets changed: one for each
    warning, one for each mapping of a CNAME. *)
Definition Update_events (this new : EntryVersion) (st : state) : state :=
  let st := fold_left (fun st w => ObjectEvent (object this) EventTypeNormal "reconcile" w st)
                      (warnings new) st in
  fold_left (fun st '(dns, m) =>
               ObjectEvent (object this) EventTypeNormal "dnslookup"
                 ("mapping cname " ++ quote dns ++ " to [" ++ Join m " " ++ "]") st)
            (mappings new) st.

(** [Entry.Update] on the entry at address [this]: it returns the address
    of the entry to use from now on. The result is [None] only for an
    address at which there is no entry. *)
Definition Update (st : state) (h : Heap) (this : nat) (new : EntryVersion)
  : option (state * Heap * nat) :=
  match cells h !! this with
  | None => None
  | Some e =>
      if negb (bool_decide (ZonedDNSName_of (version e) = ZonedDNSName_of new)) then
        let '(h, a) := NewEntry st h new in
        Some (st, h, a)
      else
        let '(reasons, _) := RequiresUpdateFor (version e) new in
        let '(st, e) :=
          if negb (length reasons =? 0)%nat then
            let st :=
              if DifferFrom (targets (version e)) (targets new) && negb (IsDeleting new)
              then Update_events (version e) new st
              else st in
            (st, mkEntry (lock e) (key e) (createdAt e) true (updateRequired e)
                         (activezone e) (version e))
          else (st, e) in
        let e := mkEntry (lock e) (key e) (createdAt e) (modified e) (updateRequired e)
                         (activezone e) new in
        let e :=
          if valid new && String.eqb (s_State (status (version e))) STATE_STALE
          then mkEntry (lock e) (key e) (createdAt e) true (updateRequired e)
                       (activezone e) (version e)
          else e in
        Some (st, mkHeap (<[this := e]> (cells h)) (locks h), this)
  end.

(* ===================================================================== *)
(** ** EntryList *)
(* ===================================================================== *)

(** An [EntryList] is a slice of pointers to entries; [Lock] reads the key
    and the lock of each entry only, so the list of the entries behind the
    pointers stands for it. *)
Definition EntryList := list Entry.

(** [EntryList.Less(i, j)] for the entries at the positions [i] and [j] *)
Definition Less (ei ej : Entry) : bool := CompareLt (key ei) (key ej).

(** Ascending order of two neighbours: the second is not less than the
    first. *)
Definition key_le (a b : Entry) : Prop := Less b a = false.

(** What happens to the locks during a call. *)
Inductive LockEvent :=
| Acquired (l : nat)
| Cancelled (l : nat)
| Released (l : nat).

(** The locks as the calling goroutine sees them: the locks it holds, the
    last acquired first, and what it did to locks so far. *)
Record Locks := mkLocks {
  held : list nat;
  history : list LockEvent;
}.

(** Release one hold of lock [l]. *)
Fixpoint release (l : nat) (hs : list nat) : list nat :=
  match hs with
  | [] => []
  | x :: hs => if Nat.eqb x l then hs else x :: release l hs
  end.

Section EntryListLock.

(** [sort.Sort] of the Go library on an [EntryList]; its contract is
    that the result is a rearrangement of the list in ascending order
    of [Less]. *)
Variable sort_Sort : EntryList -> EntryList.

(** Modelled from the spec: [dnsutils.TryLock], the cancellable
    mutual-exclusion lock of an entry. [Lock] returns with the lock held,
    or, when the context of the lock was cancelled, with an error and the
    lock not held. [cancelled] tells for the history of the call and a
    lock whether the acquisition is cancelled. *)
Variable cancelled : list LockEvent -> nat -> error.

Definition TryLock_Lock (l : nat) (s : Locks) : Locks * error :=
  match cancelled (history s) l with
  | Some e => (mkLocks (held s) (append (history s) (Cancelled l)), Some e)
  | None => (mkLocks (l :: held s) (append (history s) (Acquired l)), None)
  end.

Definition TryLock_Unlock (l : nat) (s : Locks) : Locks :=
  mkLocks (release l (held s)) (append (history s) (Released l)).

Definition Sort (this : EntryList) : EntryList := sort_Sort this.

(** The loop [for j := i - 1; j >= 0; j--] of [Lock] over the entries
    [this[0..i)], given in [locked]. *)
Definition Lock_unwind (locked : list Entry) (s : Locks) : Locks :=
  fold_left (fun s e => TryLock_Unlock (lock e) s) (rev locked) s.

(** The loop [for i := 0; i < len(this); i++] of [Lock] at position [i]:
    [locked] are the entries [this[0..i)], [todo] the entries from [i]. *)
Fixpoint Lock_loop (locked todo : list Entry) (s : Locks) : Locks * error :=
  match todo with
  | [] => (s, None)
  | e :: todo =>
      match TryLock_Lock (lock e) s with
      | (s, Some err) => (Lock_unwind locked s, Some err)
      | (s, None) => Lock_loop (append locked e) todo s
      end
  end.

(** [EntryList.Lock]: the list is sorted in place, so the sorted list is
    part of the result. *)
Definition Lock (this : EntryList) (s : Locks) : EntryList * Locks * error :=
  let this := Sort this in
  let '(s, err) := Lock_loop [] this s in
  (this, s, err).

Definition Unlock (this : EntryList) (s : Locks) : Locks :=
  fold_left (fun s e => TryLock_Unlock (lock e) s) this s.

End EntryListLock.

(** Every lock of an entry of the heap was allocated. *)
Definition heap_wf (h : Heap) : Prop :=
  forall (a : nat) (e : Entry), cells h !! a = Some e -> lock e ∈ locks h.



Global Instance key_le_dec : RelDecision key_le.
Proof. intros a b. unfold key_le. apply _. Defined.

(* ===================================================================== *)
(** ** Example objects *)
(* ===================================================================== *)

Module Examples.

Definition name : ObjectName := mkObjectName "default" "www".

Definition no_status : DNSBaseStatus := mkStatus 0 "" None None None None None None None.

(** The status of an entry that is READY in zone [zone-1] of a provider
    of type [mock], for generation 1. *)
Definition ready_status : DNSBaseStatus :=
  mkStatus 1 STATE_READY (Some "dns entry active") None (Some "mock")
           (Some "default/mock") (Some "zone-1") (Some 300) (Some ["1.1.1.1"]).

(** An entry object [default/www] of generation 1 for [www.example.com],
    created at time 950. *)
Definition entry (tg tx : slice string) (ttl : option Z) (ref : option EntryReference)
           (s : DNSBaseStatus) : DNSObject :=
  mkObject name "DNSEntry" 1 950 false 0 "www.example.com" tg tx ttl None None ref s.

(** The two addresses of the examples are IPv4 addresses, everything
    else is a host name. *)
Definition parseIP (s : string) : IPKind :=
  if String.eqb s "1.1.1.1" || String.eqb s "2.2.2.2" then IPv4 else NoIP.

(** The formatting of the examples: [%s] stands for the next operand, and
    for the text that [fmt.Sprintf] writes when there is none; the formats
    of the examples hold no other directive. *)
Fixpoint sprintf (format : string) (operands : list string) : string :=
  match format with
  | EmptyString => EmptyString
  | String c r =>
      match r with
      | String d r2 =>
          if Ascii.eqb c "%"%char && Ascii.eqb d "s"%char then
            match operands with
            | a :: operands => a ++ sprintf r2 operands
            | [] => "%!s(MISSING)" ++ sprintf r2 []
            end
          else String c (sprintf r operands)
      | EmptyString => String c EmptyString
      end
  end.

(** A controller state at time 1000: the object cache answers with
    [cache], every access is allowed, every owner is known, every name is
    valid, no host can be resolved, the store accepts every request, and
    [default/www] holds the finalizer. *)
Definition controller (cache : ObjectName -> Cached) : state :=
  mkState cache (fun _ _ => None) (fun _ => true) (fun _ => false)
          (fun _ => None) (fun _ => None) parseIP (fun _ => inr "no such host")
          sprintf 1000 None None ∅ {[ name ]} [].

Definition empty_cache : ObjectName -> Cached := fun _ => NotFound.

Definition config : Config := mkConfig 120 "dns".

Definition mock : DNSProvider := mkDNSProvider 1 (mkObjectName "default" "mock") 300 true.

(** The premise of [www.example.com] with the provider [mock], and the
    premise when no provider is there. *)
Definition premise : EntryPremise :=
  mkEntryPremise {[ "mock" ]} "mock" (Some mock) None "zone-1" "example.com".
Definition no_premise : EntryPremise :=
  mkEntryPremise {[ "mock" ]} "" None None "" "".

(** A new entry with one target, not yet seen by any provider. *)
Definition new_entry : EntryVersion :=
  NewEntryVersion (entry (Some ["1.1.1.1"]) None None None no_status) None.

(** An entry that is READY. *)
Definition ready_entry : EntryVersion :=
  NewEntryVersion (entry (Some ["1.1.1.1"]) None None None ready_status) None.

(** A READY entry whose specification changed: generation 2, observed
    generation 1. *)
Definition changed_entry : EntryVersion :=
  NewEntryVersion
    (mkObject name "DNSEntry" 2 950 false 0 "www.example.com"
              (Some ["2.2.2.2"]) None None None None None ready_status) None.

(** An entry with a target given three times. *)
Definition duplicate_entry (ttl : option Z) : EntryVersion :=
  NewEntryVersion
    (entry (Some ["1.1.1.1"; "a.example.com"; "1.1.1.1"; "1.1.1.1"]) None ttl None
           ready_status) None.

(** Entries with targets and text, with neither, and with empty text. *)
Definition both_entry : EntryVersion :=
  NewEntryVersion (entry (Some ["1.1.1.1"]) (Some ["hello"]) None None no_status) None.
Definition neither_entry : EntryVersion :=
  NewEntryVersion (entry None None None None no_status) None.
Definition empty_text_entry : EntryVersion :=
  NewEntryVersion (entry None (Some [""]) None None no_status) None.

(** An entry with twelve host names as targets. *)
Definition many_entry : EntryVersion :=
  NewEntryVersion
    (entry (Some ["a1.example.org"; "a2.example.org"; "a3.example.org"; "a4.example.org";
                  "a5.example.org"; "a6.example.org"; "a7.example.org"; "a8.example.org";
                  "a9.example.org"; "b1.example.org"; "b2.example.org"; "b3.example.org"])
           None None None ready_status) None.

(** An entry with targets and text that refers to itself. *)
Definition self_object : DNSObject :=
  entry (Some ["1.1.1.1"]) (Some ["hello"]) None (Some (mkRef "" "www")) no_status.
Definition self_entry : EntryVersion := NewEntryVersion self_object None.
Definition self_cache : ObjectName -> Cached := fun _ => Found self_object.

(** An entry without values of its own that refers to the entry
    [default/origin], which has one target and no TTL. *)
Definition origin_object : DNSObject :=
  mkObject (mkObjectName "default" "origin") "DNSEntry" 1 900 false 0
           "origin.example.com" (Some ["1.1.1.1"]) None None None None None no_status.
Definition referring_entry : EntryVersion :=
  NewEntryVersion (entry None None None (Some (mkRef "" "origin")) no_status) None.
Definition origin_cache : ObjectName -> Cached :=
  fun n => if decide (n = mkObjectName "default" "origin") then Found origin_object
           else NotFound.


(** Three entries with their locks, not in the order of their keys. *)
Definition entry_of (l : nat) (k : string) : Entry :=
  mkEntry l k 0 false false "" new_entry.
Definition batch : EntryList :=
  [entry_of 1 "default/b"; entry_of 2 "default/c"; entry_of 3 "default/a"].

(** The acquisition of lock 2 is cancelled. *)
Definition cancel_2 : list LockEvent -> nat -> error :=
  fun _ l => if Nat.eqb l 2 then Some "context canceled" else None.
Definition no_cancel : list LockEvent -> nat -> error := fun _ _ => None.

(** A heap with the READY entry at address 0. *)
Definition heap : Heap :=
  mkHeap {[ 0%nat := mkEntry 7 "default/www" 900 false false "zone-1" ready_entry ]}
         {[ 7%nat ]}.

(** A new version of the entry in another zone. *)
Definition moved_entry : EntryVersion :=
  upd_status (set_Zone (Some "zone-2")) ready_entry.

End Examples.

(* ===================================================================== *)
(** ** Proof automation *)
(* ===================================================================== *)

(** An entry version after a status update: the fields of the status in
    memory are the ones the modifier left; the other fields are as before,
    the object apart. *)
Definition same_flags (a b : EntryVersion) : Prop :=
  responsible a = responsible b /\ valid a = valid b /\ interval a = interval b
  /\ targets a = targets b /\ warnings a = warnings b.

(** Case analysis on an innermost scrutinee of a hypothesis. *)
Ltac break_match_hyp H :=
  match type of H with
  | context [match ?x with _ => _ end] =>
      lazymatch x with
      | context [match _ with _ => _ end] => fail
      | _ => destruct x eqn:?
      end
  end.

(** Boolean tests in hypotheses as propositions. *)
Ltac bool_hyps :=
  repeat match goal with
         | H : negb _ = true |- _ => apply negb_true_iff in H
         | H : negb _ = false |- _ => apply negb_false_iff in H
         | H : _ && _ = true |- _ => apply andb_true_iff in H; destruct H
         | H : _ || _ = false |- _ => apply orb_false_iff in H; destruct H
         | H : _ && _ = false |- _ => apply andb_false_iff in H; destruct H
         | H : String.eqb _ _ = true |- _ => apply String.eqb_eq in H
         | H : String.eqb _ _ = false |- _ => apply String.eqb_neq in H
         | H : Z.eqb _ _ = true |- _ => apply Z.eqb_eq in H
         | H : Z.eqb _ _ = false |- _ => apply Z.eqb_neq in H
         end.


(** The checks of [validate] before the targets are read; [Httlok] says
    that the test of the TTL passes. *)
Ltac pass_checks Hvdn Hvs Hc Hz Hboth Httl Httlok :=
  unfold validate;
  rewrite Hvdn, Hvs, Hc; cbn [rbind];
  rewrite (proj2 (String.eqb_neq _ _) Hz);
  rewrite Hboth;
  rewrite Httl; cbn [rbind];
  rewrite Httlok.

(** Name the result of every call of [updateStatus] in [H], with what the
    lemma [lem] says about it. *)
Ltac name_updateStatus lem H :=
  repeat match type of H with
         | context [updateStatus ?a ?b ?c ?d] =>
             let Hu := fresh "Hu" in
             pose proof (lem a b c d) as Hu;
             destruct (updateStatus a b c d) as [[? ?] ?]
         end.


(* ===================================================================== *)
(** ** Entry.Before and the registry of entries *)
(* ===================================================================== *)

(** [Entry.Before]: the order of entries by creation time of their objects,
    and by object name for objects created at the same time. The argument
    [e] may be [nil]. *)
Definition Before (this : Entry) (e : option Entry) : bool :=
  match e with
  | None => true
  | Some e =>
      if o_CreationTimestamp (object (version this))
         =? o_CreationTimestamp (object (version e))
      then
        (* for entries created at same time compare objectname to define strict order *)
        CompareLt (ObjectName_String (ObjectName_of (version this)))
                  (ObjectName_String (ObjectName_of (version e)))
      else o_CreationTimestamp (object (version this))
           <? o_CreationTimestamp (object (version e))
  end.

(** [Entries], a [map[resources.ObjectName]*Entry]: the pointers are the
    addresses of the entries in the heap. A method called on an address
    without entry has no result. *)
Definition Entries_AddEntry (h : Heap) (this : gmap ObjectName nat) (entry : nat)
  : option (gmap ObjectName nat * option nat) :=
  match cells h !! entry with
  | None => None
  | Some e =>
      let n := ObjectName_of (version e) in
      let old := this !! n in
      let this := <[n := entry]> this in
      match old with
      | Some o => if negb (Nat.eqb o entry) then Some (this, Some o) else Some (this, None)
      | None => Some (this, None)
      end
  end.

Definition Entries_Delete (h : Heap) (this : gmap ObjectName nat) (e : nat)
  : option (gmap ObjectName nat) :=
  match cells h !! e with
  | None => None
  | Some en =>
      let n := ObjectName_of (version en) in
      match this !! n with
      | Some a => if Nat.eqb a e then Some (delete n this) else Some this
      | None => Some this
      end
  end.

(** The loops of [AddResponsibleTo] and [AddActiveZoneTo] range over the
    map in an order that Go leaves open; the model takes the order of
    [map_to_list]. [keep] is the test of the loop body on an entry. *)
Definition Entries_add_to (keep : Entry -> bool) (h : Heap) (this : gmap ObjectName nat)
           (lst : list nat) : list nat :=
  fold_left (fun lst '(_, a) =>
               match cells h !! a with
               | Some e => if keep e then append lst a else lst
               | None => lst
               end)
            (map_to_list this) lst.

Definition Entries_AddResponsibleTo (h : Heap) (this : gmap ObjectName nat) (lst : list nat)
  : list nat :=
  Entries_add_to (fun e => IsResponsible (version e)) h this lst.

Definition Entries_AddActiveZoneTo (zoneid_ : string) (h : Heap) (this : gmap ObjectName nat)
           (lst : list nat) : list nat :=
  Entries_add_to (fun e => String.eqb (activezone e) zoneid_) h this lst.

(** [EntryVersion.KeepRecords] *)
Definition KeepRecords (this : EntryVersion) : bool :=
  IsValid this || negb (String.eqb (s_State (status this)) STATE_INVALID).

(** The separator that a loop with [sep := ""], and [sep = ", "] after
    the first round, uses after the elements [done]. *)
Definition separator_after {A : Type} (done : list A) : string :=
  match done with
  | [] => ""
  | _ => ", "
  end.


(** The events of [normalizeTargets] for the targets whose host cannot be
    looked up. *)
Definition lookup_failures (st : state) (obj : DNSObject) (targets : Targets) : list Event :=
  flat_map (fun t =>
              match lookupHosts st (GetHostName t) with
              | inl _ => []
              | inr err =>
                  [mkEvent (o_ObjectName obj) EventTypeNormal "dnslookup"
                           ("cannot lookup '" ++ GetHostName t ++ "': " ++ err)]
              end)
           targets.

(** A list of targets is treated as CNAME targets to resolve when it has
    more than one target and the first is of kind CNAME. *)
Definition multiCNAME (targets : Targets) : bool :=
  (1 <? Z.of_nat (length targets))
  && match targets with
     | t0 :: _ => bool_decide (GetRecordType t0 = RS_CNAME)
     | [] => false
     end.

(** Name the result of every call of an [Assure...] method and of
    [AcknowledgeTargets] in the goal, with what the lemmas say about it. *)
Ltac name_assure_with string_value string_ptr_value string_ptr_ptr int64_value int64_ptr_ptr
                      acknowledge :=
  repeat (match goal with
          | |- context [AssureStringValue ?x ?y ?z] =>
              let H := fresh "Ha" in
              pose proof (string_value x y z) as H;
              destruct (AssureStringValue x y z) as [? ?]
          | |- context [AssureStringPtrValue ?x ?y ?z] =>
              let H := fresh "Ha" in
              pose proof (string_ptr_value x y z) as H;
              destruct (AssureStringPtrValue x y z) as [? ?]
          | |- context [AssureStringPtrPtr ?x ?y ?z] =>
              let H := fresh "Ha" in
              pose proof (string_ptr_ptr x y z) as H;
              destruct (AssureStringPtrPtr x y z) as [? ?]
          | |- context [AssureInt64Value ?x ?y ?z] =>
              let H := fresh "Ha" in
              pose proof (int64_value x y z) as H;
              destruct (AssureInt64Value x y z) as [? ?]
          | |- context [AssureInt64PtrPtr ?x ?y ?z] =>
              let H := fresh "Ha" in
              pose proof (int64_ptr_ptr x y z) as H;
              destruct (AssureInt64PtrPtr x y z) as [? ?]
          | |- context [AcknowledgeTargets ?x ?y] =>
              let H := fresh "Ha" in
              pose proof (acknowledge x y) as H;
              destruct (AcknowledgeTargets x y) as [? ?]
          end;
          cbn [fst snd] in *; cbv beta iota zeta).


(* ===================================================================== *)
(** ** More examples *)
(* ===================================================================== *)

Module MoreExamples.

Import Examples.

(** A controller state whose resolver knows [a.example.org], with one IPv4
    and one IPv6 address, and no other host. *)
Definition resolver : state :=
  mkState empty_cache (fun _ _ => None) (fun _ => true) (fun _ => false)
          (fun _ => None) (fun _ => None) parseIP
          (fun h => if String.eqb h "a.example.org"
                    then inl [mkIP "1.1.1.1" true true; mkIP "2001:db8::1" false true]
                    else inr "no such host")
          sprintf 1000 None None ∅ {[ name ]} [].

(** Two host names as targets. *)
Definition cname_targets : Targets :=
  [NewTarget RS_CNAME "a.example.org" 300; NewTarget RS_CNAME "b.example.org" 300].

(** A controller state that knows no owner. *)
Definition strict_controller : state :=
  mkState empty_cache (fun _ _ => None) (fun _ => false) (fun _ => false)
          (fun _ => None) (fun _ => None) parseIP (fun _ => inr "no such host")
          sprintf 1000 None None ∅ {[ name ]} [].

(** A READY entry of the owner [stranger], and a READY entry that is being
    deleted. *)
Definition owned_entry : EntryVersion :=
  NewEntryVersion
    (mkObject name "DNSEntry" 1 950 false 0 "www.example.com"
              (Some ["1.1.1.1"]) None None (Some "stranger") None None ready_status) None.

(** A premise with zone and provider type, without provider. *)
Definition bare_premise : EntryPremise :=
  mkEntryPremise {[ "mock" ]} "mock" None None "zone-1" "example.com".

(** A reschedule delay that is over for the entries of the examples. *)
Definition short_config : Config := mkConfig 10 "dns".

(** A no-break space (U+00A0) in UTF-8. *)
Definition nbsp : string := String "194"%char (String "160"%char EmptyString).

(** The registry of entries with [default/www] at address 0. *)
Definition registry : gmap ObjectName nat := {[ name := 0%nat ]}.

End MoreExamples.

(* ===================================================================== *)
(** * Properties *)
(* ===================================================================== *)

(** ** EntryPremise: Match and NotifyChange *)

Lemma Join_nonempty_prefix (r : list string) :
  "premise changed: " ++ Join r ", " <> "".
Proof. discriminate. Qed.

Lemma Match_changed_fields (a b : EntryPremise) :
  Match a b = true <-> changed_fields a b = [].
Proof.
  unfold Match, changed_fields, field_differs; simpl.
  destruct (String.eqb (ptype a) (ptype b)),
           (provider_eqb (provider a) (provider b)),
           (String.eqb (zoneid a) (zoneid b)),
           (provider_eqb (fallback a) (fallback b));
    simpl; split; intros H; try reflexivity; try discriminate.
Qed.

(** C8: [NotifyChange a b] is the empty string exactly when [Match a b]
    holds; otherwise it is the text "premise changed: " followed by the
    descriptions of exactly the fields among provider type, provider
    instance, zone id and fallback in which the two premises differ; the
    zone domain takes part in neither. *)
Theorem NotifyChange_Match (a b : EntryPremise) :
  (NotifyChange a b = "" <-> Match a b = true)
  /\ NotifyChange a b =
       (if Match a b then ""
        else "premise changed: " ++ Join (map (field_change a b) (changed_fields a b)) ", ")
  /\ (forall f, In f (changed_fields a b) <-> field_differs a b f = true)
  /\ (forall d d',
         Match (with_zonedomain a d) (with_zonedomain b d') = Match a b
         /\ NotifyChange (with_zonedomain a d) (with_zonedomain b d') = NotifyChange a b).
Proof.
  assert (Hrender : NotifyChange a b =
       (if Match a b then ""
        else "premise changed: " ++ Join (map (field_change a b) (changed_fields a b)) ", ")).
  { unfold NotifyChange, Match, changed_fields, field_differs, field_change; simpl.
    destruct (String.eqb (ptype a) (ptype b)),
             (provider_eqb (provider a) (provider b)),
             (String.eqb (zoneid a) (zoneid b)),
             (provider_eqb (fallback a) (fallback b)); reflexivity. }
  split; [| split; [exact Hrender | split]].
  - rewrite Hrender. destruct (Match a b); split; intros H;
      try reflexivity; try discriminate.
  - intros f. unfold changed_fields. rewrite filter_In.
    split; [intros [_ H]; exact H |].
    intros H; split; [| exact H].
    destruct f; simpl; auto.
  - intros d d'; split; reflexivity.
Qed.

(** ** dnsSpecModification: the accessors of a completed specification *)

Lemma GetTTL_unset (fuel : nat) (m : dnsSpecModification) :
  mod_ttl m = None -> dnsSpecModification_GetTTL fuel m = Timeout.
Proof. intros H. induction fuel as [| n IH]; simpl; [reflexivity |]. rewrite H. exact IH. Qed.

Lemma GetOwnerId_unset (fuel : nat) (m : dnsSpecModification) :
  mod_ownerid m = None -> dnsSpecModification_GetOwnerId fuel m = Timeout.
Proof. intros H. induction fuel as [| n IH]; simpl; [reflexivity |]. rewrite H. exact IH. Qed.

Lemma GetCNameLookupInterval_unset (fuel : nat) (m : dnsSpecModification) :
  mod_lookup m = None -> dnsSpecModification_GetCNameLookupInterval fuel m = Timeout.
Proof. intros H. induction fuel as [| n IH]; simpl; [reflexivity |]. rewrite H. exact IH. Qed.

(** C2: on a completed specification the accessors [GetOwnerId],
    [GetCNameLookupInterval] and [GetTTL] return the local value when it is
    set; when it is not set they do not return the value of the wrapped
    specification: whatever that value is, and however deep the calls may
    go, the accessor calls itself again and gives no result. *)
Theorem accessors_of_unset_value_give_no_result :
  forall (fuel : nat) (o : DNSObject) (tg tx : slice string),
    (forall (ow : option string) (lk : option Z),
        dnsSpecModification_GetTTL fuel (mkMod o tg tx None ow lk) = Timeout)
    /\ (forall (tt : option Z) (lk : option Z),
        dnsSpecModification_GetOwnerId fuel (mkMod o tg tx tt None lk) = Timeout)
    /\ (forall (tt : option Z) (ow : option string),
        dnsSpecModification_GetCNameLookupInterval fuel (mkMod o tg tx tt ow None) = Timeout)
    /\ (forall (v : Z) (ow : option string) (lk : option Z),
        dnsSpecModification_GetTTL (S fuel) (mkMod o tg tx (Some v) ow lk) = Val (Some v))
    /\ (forall (v : string) (tt : option Z) (lk : option Z),
        dnsSpecModification_GetOwnerId (S fuel) (mkMod o tg tx tt (Some v) lk) = Val (Some v))
    /\ (forall (v : Z) (tt : option Z) (ow : option string),
        dnsSpecModification_GetCNameLookupInterval (S fuel) (mkMod o tg tx tt ow (Some v))
        = Val (Some v)).
Proof.
  intros fuel o tg tx. repeat split; intros.
  - apply GetTTL_unset; reflexivity.
  - apply GetOwnerId_unset; reflexivity.
  - apply GetCNameLookupInterval_unset; reflexivity.
Qed.

(** ** UpdateStatus *)

(** C10: [UpdateStatus] with state PENDING on an object whose status has a
    state already returns [(false, nil)] and changes nothing: the entry
    version, the object and every field of its status stay as they are. *)
Theorem UpdateStatus_pending_noop (st : state) (this : EntryVersion) (msg : string) :
  s_State (BaseStatus (object this)) <> "" ->
  UpdateStatus st this STATE_PENDING msg = (this, (false, None)).
Proof.
  intros H. unfold UpdateStatus, ModifyStatus, UpdateStatus_f.
  apply String.eqb_neq in H. rewrite H. reflexivity.
Qed.

(** ** EntryList: locking a batch of entries *)

Lemma CompareLt_lt (a b : string) :
  CompareLt a b = true <-> OrderedTypeEx.String_as_OT.lt a b.
Proof.
  unfold CompareLt. rewrite <- OrderedTypeEx.String_as_OT.cmp_lt.
  unfold OrderedTypeEx.String_as_OT.cmp.
  destruct (String.compare a b); split; intros H; try reflexivity; discriminate.
Qed.

Lemma CompareLt_total (a b : string) :
  CompareLt a b = false -> CompareLt b a = false -> a = b.
Proof.
  unfold CompareLt. rewrite (String.compare_antisym b a).
  destruct (String.compare a b) eqn:E; simpl; intros H1 H2; try discriminate.
  apply String.compare_eq_iff; exact E.
Qed.

Lemma key_le_transitive : Transitive key_le.
Proof.
  intros a b c Hab Hbc. unfold key_le, Less in *.
  destruct (CompareLt (key c) (key a)) eqn:Hca; [| reflexivity].
  destruct (CompareLt (key b) (key c)) eqn:Hbc'.
  - apply CompareLt_lt in Hca, Hbc'.
    pose proof (OrderedTypeEx.String_as_OT.lt_trans _ _ _ Hbc' Hca) as Hba.
    apply CompareLt_lt in Hba. congruence.
  - pose proof (CompareLt_total _ _ Hbc' Hbc) as Heq.
    rewrite Heq in Hab. congruence.
Qed.

Lemma key_le_total : Total key_le.
Proof.
  intros a b. unfold key_le, Less, CompareLt.
  rewrite (String.compare_antisym (key a) (key b)).
  destruct (String.compare (key b) (key a)); simpl; auto.
Qed.

Section LockProperties.

Variable sort_Sort : EntryList -> EntryList.
Variable cancelled : list LockEvent -> nat -> error.

Hypothesis sort_Sort_permutation : forall l, Permutation l (sort_Sort l).
Hypothesis sort_Sort_ascending : forall l, Sorted key_le (sort_Sort l).

Lemma unlock_all (l : list Entry) (s : Locks) (h0 : list nat) :
  held s = (map lock l ++ h0)%list ->
  let s' := fold_left (fun s e => TryLock_Unlock (lock e) s) l s in
  held s' = h0
  /\ history s' = (history s ++ map Released (map lock l))%list.
Proof.
  revert s. induction l as [| x l IH]; intros s Hs; simpl in *.
  - split; [exact Hs | now rewrite app_nil_r].
  - specialize (IH (TryLock_Unlock (lock x) s)).
    destruct IH as [IH1 IH2].
    + simpl. rewrite Hs. simpl. now rewrite Nat.eqb_refl.
    + split; [exact IH1 |].
      rewrite IH2. simpl. unfold append. now rewrite <- app_assoc.
Qed.

Lemma Lock_unwind_restores (locked : list Entry) (s : Locks) (h0 : list nat) :
  held s = (rev (map lock locked) ++ h0)%list ->
  held (Lock_unwind locked s) = h0
  /\ history (Lock_unwind locked s)
     = (history s ++ map Released (rev (map lock locked)))%list.
Proof.
  intros Hs. unfold Lock_unwind.
  rewrite <- map_rev in *. now apply unlock_all.
Qed.

Lemma Lock_loop_spec (todo locked : list Entry) (s : Locks)
      (h0 : list nat) (hist0 : list LockEvent) :
  held s = (rev (map lock locked) ++ h0)%list ->
  history s = (hist0 ++ map Acquired (map lock locked))%list ->
  match Lock_loop cancelled locked todo s with
  | (s', None) =>
      held s' = (rev (map lock (locked ++ todo)) ++ h0)%list
      /\ history s' = (hist0 ++ map Acquired (map lock (locked ++ todo)))%list
  | (s', Some e) =>
      held s' = h0
      /\ exists pre x post,
           todo = (pre ++ x :: post)%list
           /\ cancelled (hist0 ++ map Acquired (map lock (locked ++ pre)))%list (lock x) = Some e
           /\ history s'
              = (hist0 ++ map Acquired (map lock (locked ++ pre))
                       ++ [Cancelled (lock x)]
                       ++ map Released (rev (map lock (locked ++ pre))))%list
  end.
Proof.
  revert locked s. induction todo as [| x todo IH]; intros locked s Hheld Hhist; simpl.
  - rewrite app_nil_r. auto.
  - unfold TryLock_Lock.
    destruct (cancelled (history s) (lock x)) as [e |] eqn:Hc.
    + pose (s1 := mkLocks (held s) (append (history s) (Cancelled (lock x)))).
      destruct (Lock_unwind_restores locked s1 h0 Hheld) as [U1 U2].
      split; [exact U1 |].
      exists [], x, todo. rewrite app_nil_r. rewrite <- Hhist.
      split; [reflexivity |]. split; [exact Hc |].
      fold s1. rewrite U2. simpl. unfold append.
      rewrite Hhist. now rewrite <- !app_assoc.
    + specialize (IH (append locked x)
                     (mkLocks (lock x :: held s) (append (history s) (Acquired (lock x))))).
      unfold append in *.
      assert (H1 : held (mkLocks (lock x :: held s) (history s ++ [Acquired (lock x)]))
                   = (rev (map lock (locked ++ [x])) ++ h0)%list).
      { simpl. rewrite map_app, rev_app_distr. simpl. now rewrite Hheld. }
      assert (H2 : history (mkLocks (lock x :: held s) (history s ++ [Acquired (lock x)]))
                   = (hist0 ++ map Acquired (map lock (locked ++ [x])))%list).
      { simpl. rewrite Hhist, !map_app. simpl. now rewrite <- app_assoc. }
      specialize (IH H1 H2).
      destruct (Lock_loop cancelled (locked ++ [x]) todo _) as [s' [e |]].
      * destruct IH as [IH1 (pre & y & post & Ht & Hcy & Hh)].
        split; [exact IH1 |].
        exists (x :: pre), y, post.
        rewrite <- app_assoc in Hcy, Hh. simpl in Hcy, Hh.
        split; [now rewrite Ht |]. split; assumption.
      * rewrite <- app_assoc in IH. exact IH.
Qed.

(** C1: [Lock] first sorts the list into ascending order of the keys of
    the entries, then acquires the locks in that order. When all
    acquisitions succeed it returns nil and holds the lock of every entry.
    When the acquisition for the entry at position i is cancelled it
    releases the locks of the entries i-1 down to 0, in this order, and
    returns the error; the caller then holds exactly the locks it held
    before the call. *)
Theorem Lock_all_or_none (this : EntryList) (s : Locks) :
  match Lock sort_Sort cancelled this s with
  | (this', s', err) =>
      Permutation this this'
      /\ StronglySorted key_le this'
      /\ match err with
         | None =>
             held s' = (rev (map lock this') ++ held s)%list
             /\ history s' = (history s ++ map Acquired (map lock this'))%list
         | Some e =>
             held s' = held s
             /\ exists pre x post,
                  this' = (pre ++ x :: post)%list
                  /\ cancelled (history s ++ map Acquired (map lock pre))%list (lock x)
                     = Some e
                  /\ history s'
                     = (history s ++ map Acquired (map lock pre)
                                  ++ [Cancelled (lock x)]
                                  ++ map Released (rev (map lock pre)))%list
         end
  end.
Proof.
  unfold Lock, Sort.
  pose proof (Lock_loop_spec (sort_Sort this) [] s (held s) (history s)) as H.
  simpl in H. rewrite app_nil_r in H.
  specialize (H eq_refl eq_refl).
  destruct (Lock_loop cancelled [] (sort_Sort this) s) as [s' err].
  split; [apply sort_Sort_permutation |].
  split; [apply Sorted_StronglySorted; [apply key_le_transitive | apply sort_Sort_ascending] |].
  exact H.
Qed.

End LockProperties.

(** ** Entry.Update *)

Lemma NewEntry_fresh (st : state) (h : Heap) (v : EntryVersion) :
  heap_wf h ->
  exists e,
    NewEntry st h v = (mkHeap (<[fresh (dom (cells h)) := e]> (cells h))
                              ({[ lock e ]} ∪ locks h),
                       fresh (dom (cells h)))
    /\ cells h !! (fresh (dom (cells h))) = None
    /\ version e = v
    /\ key e = ObjectName_String (ObjectName_of v)
    /\ createdAt e = Now st
    /\ modified e = true
    /\ (lock e ∉ locks h)
    /\ (forall b eb, cells h !! b = Some eb -> lock e <> lock eb).
Proof.
  intros Hwf. unfold NewEntry.
  exists (mkEntry (fresh (locks h)) (ObjectName_String (ObjectName_of v)) (Now st)
                  true false (StringValue (s_Zone (status v))) v).
  split; [reflexivity |]. simpl.
  assert (Hl : fresh (locks h) ∉ locks h) by apply is_fresh.
  repeat split; auto.
  - apply not_elem_of_dom. apply is_fresh.
  - intros b eb Hb Heq. apply Hl. rewrite Heq. eapply Hwf; eauto.
Qed.

(** C9: [Update] of the entry at an address with a new version returns the
    same address, with the new version installed and key, lock and creation
    time as before, when the zoned DNS name of the new version is the one
    of the current version. When the zoned DNS names differ it returns the
    address of a new entry for the new version, with a lock that no entry
    had before; the old entry, and so its key, stays as it was. *)
Theorem Update_keeps_or_replaces (st : state) (h : Heap) (this : nat) (e : Entry)
        (new : EntryVersion) :
  heap_wf h ->
  cells h !! this = Some e ->
  (ZonedDNSName_of (version e) = ZonedDNSName_of new ->
   exists st' e',
     Update st h this new = Some (st', mkHeap (<[this := e']> (cells h)) (locks h), this)
     /\ version e' = new
     /\ key e' = key e
     /\ lock e' = lock e
     /\ createdAt e' = createdAt e)
  /\ (ZonedDNSName_of (version e) <> ZonedDNSName_of new ->
      exists h' a e',
        Update st h this new = Some (st, h', a)
        /\ a <> this
        /\ cells h !! a = None
        /\ cells h' !! a = Some e'
        /\ version e' = new
        /\ key e' = ObjectName_String (ObjectName_of new)
        /\ createdAt e' = Now st
        /\ (forall b eb, cells h !! b = Some eb -> lock e' <> lock eb)
        /\ cells h' !! this = Some e
        /\ (forall b, b <> a -> cells h' !! b = cells h !! b)).
Proof.
  intros Hwf Hthis. split; intros Hz.
  - unfold Update. rewrite Hthis.
    rewrite (bool_decide_eq_true_2 _ Hz). simpl.
    destruct (RequiresUpdateFor (version e) new) as [reasons refresh].
    destruct (negb (length reasons =? 0)%nat);
      destruct (valid new && String.eqb (s_State (status new)) STATE_STALE) eqn:Hv;
      simpl; rewrite ?Hv; eexists _, _; (split; [reflexivity |]); simpl; auto.
  - unfold Update. rewrite Hthis.
    rewrite (bool_decide_eq_false_2 _ Hz). cbn [negb].
    destruct (NewEntry_fresh st h new Hwf)
      as (e' & Heq & Hnone & Hver & Hkey & Hcr & _ & _ & Hlock).
    rewrite Heq.
    exists (mkHeap (<[fresh (dom (cells h)) := e']> (cells h)) ({[ lock e' ]} ∪ locks h)),
           (fresh (dom (cells h))), e'.
    assert (Hne : fresh (dom (cells h)) <> this).
    { intros Hc. rewrite Hc in Hnone. congruence. }
    repeat split; auto.
    + simpl. apply lookup_insert_eq.
    + simpl. rewrite lookup_insert_ne; auto.
    + intros b Hb. simpl. rewrite lookup_insert_ne; auto.
Qed.

(** ** Validation *)








(** A specification with targets or with text of its own is completed to
    itself or not at all. *)
Lemma complete_own_values (fuel : nat) (st : state) (spec obj : DNSObject) (prefix : string)
      (st' : state) (effspec : DNSSpecification) :
  complete fuel st spec obj prefix = Val (st', inl effspec) ->
  isNil (o_Targets spec) = false \/ isNil (o_Text spec) = false ->
  effspec = SpecObject spec.
Proof.
  intros H Hown. destruct fuel as [| fuel]; simpl in H; [discriminate |].
  destruct (o_Reference spec) as [ref |].
  2: { inversion H; subst; reflexivity. }
  destruct (negb (String.eqb (ref_Name ref) "")).
  2: { inversion H; subst; reflexivity. }
  match type of H with
  | context [GetCached ?s ?n] => destruct (GetCached s n) as [o | | e]
  end; try discriminate.
  match type of H with
  | context [CheckAccessWithRealms ?s ?a ?b] =>
      destruct (CheckAccessWithRealms s a b) as [e |]
  end; try discriminate.
  match type of H with
  | context [complete fuel ?s ?a ?b ?c] =>
      destruct (complete fuel s a b c) as [[st1 r1] | |]
  end; simpl in H; try discriminate.
  destruct r1 as [rspec | e]; try discriminate.
  destruct (isNil (o_Targets spec)); simpl in H; try discriminate.
  destruct (isNil (o_Text spec)); simpl in H; try discriminate.
  destruct Hown; discriminate.
Qed.

Lemma ttl_check_passes (ttl : option Z) :
  (forall t, ttl = Some t -> 0 < t) ->
  match ttl with Some t => (t =? 0) || (t <? 0) | None => false end = false.
Proof.
  intros H. destruct ttl as [t |]; [| reflexivity].
  specialize (H t eq_refl). apply orb_false_iff. split; lia.
Qed.

Lemma len_pos_not_nil {A : Type} (s : slice A) : 0 < len s -> isNil s = false.
Proof. destruct s; [reflexivity |]. unfold len; simpl. lia. Qed.

Lemma len_elems_nil {A : Type} (s : slice A) : elems s = [] -> (0 <? len s) = false.
Proof. unfold len. intros ->. reflexivity. Qed.

Lemma validate_text_only_empty (entry : EntryVersion) (ts : list string) :
  forall (targets : Targets) (warnings : list string) (tcnt : Z),
    Forall (fun t => t = "") ts ->
    exists W, validate_text entry ts targets warnings tcnt = (targets, W, tcnt).
Proof.
  induction ts as [| t ts IH]; intros targets warnings tcnt Hall; simpl.
  - now exists warnings.
  - inversion Hall; subst. simpl. apply IH. assumption.
Qed.



(** C6, as the code has it: whenever reference completion returns,
    validation fails with an error when the targets and the text of the
    specification, or of the completed specification, are both non-empty.
    For a completed specification that passes the checks before the targets
    are read and has no targets: without text values validation fails with
    "no target or text specified"; with text values that are all empty it
    fails with "dns entry has only empty text". *)
Theorem validate_targets_and_text (fuel : nat) (st : state) (entry : EntryVersion)
        (p : EntryPremise) (st1 : state) (r : DNSSpecification + string) :
  complete fuel st (object entry) (object entry) "" = Val (st1, r) ->
  ((0 < len (o_Targets (object entry)) /\ 0 < len (o_Text (object entry)))
   \/ (exists effspec, r = inl effspec
                       /\ 0 < len (GetTargets effspec) /\ 0 < len (GetText effspec)) ->
   exists st' spec T W e, validate fuel st entry p = Val (st', (spec, T, W, Some e)))
  /\ (forall (effspec : DNSSpecification) (ttl : option Z),
         r = inl effspec ->
         ValidateDomainName st (o_DNSName (object entry)) = None ->
         ValidateSpecial st (object entry) = None ->
         zonedomain p <> dnsname entry ->
         GetTTL fuel effspec = Val ttl ->
         (forall t, ttl = Some t -> 0 < t) ->
         elems (GetTargets effspec) = [] ->
         (elems (GetText effspec) = [] ->
          validate fuel st entry p
          = Val (st1, (Some effspec, [], [], Some "no target or text specified")))
         /\ (elems (GetText effspec) <> [] ->
             Forall (fun t => t = "") (elems (GetText effspec)) ->
             exists W,
               validate fuel st entry p
               = Val (st1, (Some effspec, [], W, Some "dns entry has only empty text")))).
Proof.
  intros Hc. split.
  - intros Hboth. unfold validate.
    destruct (ValidateDomainName st (o_DNSName (object entry))); [repeat eexists |].
    destruct (ValidateSpecial st (object entry)); [repeat eexists |].
    rewrite Hc; cbn [rbind].
    destruct r as [effspec | e]; [| repeat eexists].
    destruct (String.eqb (zonedomain p) (dnsname entry)); [repeat eexists |].
    assert (H : (0 <? len (GetTargets effspec)) && (0 <? len (GetText effspec)) = true).
    { destruct Hboth as [[Ht Hx] | (s & Hs & Ht & Hx)].
      - rewrite (complete_own_values _ _ _ _ _ _ _ Hc (or_introl (len_pos_not_nil _ Ht))).
        simpl. apply andb_true_iff. split; lia.
      - inversion Hs; subst s. apply andb_true_iff. split; lia. }
    rewrite H. repeat eexists.
  - intros effspec ttl -> Hvdn Hvs Hz Httl Hpos Htg.
    assert (Hboth : (0 <? len (GetTargets effspec)) && (0 <? len (GetText effspec)) = false).
    { rewrite (len_elems_nil _ Htg). reflexivity. }
    split.
    + intros Htx.
      pass_checks Hvdn Hvs Hc Hz Hboth Httl (ttl_check_passes _ Hpos).
      rewrite Htg, Htx. cbn [validate_targets validate_text].
      rewrite (len_elems_nil _ Htx). reflexivity.
    + intros Hne Hall.
      pass_checks Hvdn Hvs Hc Hz Hboth Httl (ttl_check_passes _ Hpos).
      rewrite Htg. cbn [validate_targets].
      destruct (validate_text_only_empty entry _ [] [] 0 Hall) as [W HW].
      rewrite HW. exists W.
      assert (Hl : (0 <? len (GetText effspec)) = true).
      { unfold len. destruct (elems (GetText effspec)); [congruence | reflexivity]. }
      rewrite Hl. reflexivity.
Qed.

(** ** Setup *)


(** What the modifier of [UpdateStatus] does to the entry version: nothing
    when a PENDING state is refused, else it stores the new state, and the
    message unless the entry stays STALE. *)
Lemma UpdateStatus_f_version (st : state) (s msg : string) (b : DNSBaseStatus)
      (this : EntryVersion) :
  snd (fst (fst (UpdateStatus_f st s msg b this)))
  = if String.eqb s STATE_PENDING && negb (String.eqb (s_State b) "") then this
    else upd_status (set_State s)
           (if negb (String.eqb (s_State (status this)) STATE_STALE
                     && String.eqb (s_State (status this)) s)
            then upd_status (set_Message (Some msg)) this
            else this).
Proof.
  unfold UpdateStatus_f.
  destruct (String.eqb s STATE_PENDING && negb (String.eqb (s_State b) "")); [reflexivity |].
  repeat match goal with
         | |- context [if ?c then _ else _] => destruct c
         | |- context [match ?x with Some _ => _ | None => _ end] => destruct x
         | |- context [AssureStringValue ?x ?y ?z] => destruct (AssureStringValue x y z)
         | |- context [AssureStringPtrValue ?x ?y ?z] => destruct (AssureStringPtrValue x y z)
         | |- context [AssureStringPtrPtr ?x ?y ?z] => destruct (AssureStringPtrPtr x y z)
         | |- context [AssureInt64Value ?x ?y ?z] => destruct (AssureInt64Value x y z)
         | |- context [AssureInt64PtrPtr ?x ?y ?z] => destruct (AssureInt64PtrPtr x y z)
         | |- context [AcknowledgeTargets ?x ?y] => destruct (AcknowledgeTargets x y)
         | |- context [targetList ?x] => destruct (targetList x)
         end; reflexivity.
Qed.


Lemma ModifyStatus_version (st : state) (this : EntryVersion) (f : Modifier) :
  let this1 := snd (fst (fst (f (BaseStatus (object this)) this))) in
  let this' := fst (ModifyStatus st this f) in
  status this' = status this1 /\ same_flags this' this1.
Proof.
  unfold ModifyStatus, same_flags.
  destruct (f (BaseStatus (object this)) this) as [[[b this1] m] e]. simpl.
  destruct m; simpl; [| auto 10].
  destruct e; simpl; [auto 10 |].
  destruct (store_error st); simpl; auto 10.
Qed.

Lemma UpdateStatus_state (st : state) (this : EntryVersion) (s msg : string) :
  String.eqb s STATE_PENDING = false ->
  s_State (status (fst (UpdateStatus st this s msg))) = s
  /\ same_flags (fst (UpdateStatus st this s msg)) this.
Proof.
  intros Hs. unfold UpdateStatus.
  destruct (ModifyStatus_version st this (UpdateStatus_f st s msg)) as [H1 H2].
  rewrite UpdateStatus_f_version in H1, H2. rewrite Hs in H1, H2. simpl in H1, H2.
  split.
  - rewrite H1. reflexivity.
  - unfold same_flags in *.
    destruct (negb _) in H2; simpl in H2; exact H2.
Qed.

Lemma updateStatus_version (st : state) (this : EntryVersion) (s msg : string) :
  let '(st', this', e) := updateStatus st this s msg in
  status this' = status this /\ same_flags this' this.
Proof.
  unfold updateStatus.
  pose proof (ModifyStatus_version st this (updateStatus_f s msg)) as H.
  assert (Hf : snd (fst (fst (updateStatus_f s msg (BaseStatus (object this)) this))) = this).
  { unfold updateStatus_f.
    repeat match goal with
           | |- context [if ?c then _ else _] => destruct c
           | |- context [AssureStringValue ?x ?y ?z] => destruct (AssureStringValue x y z)
           | |- context [AssureStringPtrValue ?x ?y ?z] => destruct (AssureStringPtrValue x y z)
           | |- context [AssureStringPtrPtr ?x ?y ?z] => destruct (AssureStringPtrPtr x y z)
           | |- context [AssureInt64Value ?x ?y ?z] => destruct (AssureInt64Value x y z)
           | |- context [AssureInt64PtrPtr ?x ?y ?z] => destruct (AssureInt64PtrPtr x y z)
           | |- context [AcknowledgeTargets ?x ?y] => destruct (AcknowledgeTargets x y)
           end; reflexivity. }
  rewrite Hf in H. simpl in H.
  destruct (ModifyStatus st this (updateStatus_f s msg)) as [this' [m e]]. exact H.
Qed.

Lemma same_flags_trans (a b c : EntryVersion) :
  same_flags a b -> same_flags b c -> same_flags a c.
Proof. unfold same_flags. intuition congruence. Qed.

(** The first part of [Setup] goes on only with a zone and a provider
    type; it has then changed nothing but the status in memory. *)
Lemma Setup_type_responsibility_continue (st : state) (this : EntryVersion) (p : EntryPremise)
      (err : error) (config : Config) (st1 : state) (this1 : EntryVersion) :
  Setup_type_responsibility st this p err config = Continue (st1, this1) ->
  zoneid p <> "" /\ ptype p <> "" /\ st1 = st /\ object this1 = object this
  /\ valid this1 = false.
Proof.
  unfold Setup_type_responsibility. intros H.
  destruct (String.eqb (zoneid p) "") eqn:Hz.
  - exfalso. rewrite ?andb_false_r, ?andb_true_r in H. cbn [negb andb orb] in H.
    repeat (break_match_hyp H; try discriminate).
  - destruct (String.eqb (ptype p) "") eqn:Hp.
    + exfalso. rewrite ?andb_false_r, ?andb_true_r in H. cbn [negb andb orb] in H.
      repeat (break_match_hyp H; try discriminate).
    + apply String.eqb_neq in Hz, Hp. split; [exact Hz |]. split; [exact Hp |].
      rewrite ?andb_false_r, ?andb_true_r in H. cbn [negb andb orb] in H.
      repeat (break_match_hyp H; try discriminate);
        inversion H; subst; simpl; auto.
Qed.


(** When the first part of [Setup] returns, the entry version is not
    marked responsible. *)
Lemma Setup_type_responsibility_return (st : state) (this : EntryVersion) (p : EntryPremise)
      (err : error) (config : Config) (st' : state) (this' : EntryVersion)
      (r : ReconcileStatus) :
  Setup_type_responsibility st this p err config = Return (st', this', r) ->
  responsible this' = false.
Proof.
  unfold Setup_type_responsibility. intros H.
  repeat (first [ progress (name_updateStatus updateStatus_version H)
                | break_match_hyp H; try discriminate ]);
    inversion H; subst; clear H;
    unfold same_flags in *;
    repeat match goal with
           | Hu : _ /\ _ |- _ => destruct Hu
           end;
    simpl in *; try congruence; try reflexivity.
Qed.

(** The grace period: an entry without resolved zone and without provider
    type that was created less than the reschedule delay ago. *)
Lemma grace_period_result (fuel : nat) (st : state) (this : EntryVersion) (p : EntryPremise)
      (err : error) (config : Config) :
  zoneid p = "" ->
  IsEmptyString (s_ProviderType (status this)) = true ->
  IsEmptyString (s_ProviderType (BaseStatus (object this))) = true \/ ptype p <> "" ->
  Now st < o_CreationTimestamp (object this) + RescheduleDelay config ->
  Setup fuel st this p err config
  = Val (fst (RemoveFinalizer (object this) st),
         set_responsible false (set_valid false this),
         RescheduleAfter (RescheduleDelay config)).
Proof.
  intros Hz Hs Hno Hnow. unfold Setup, Setup_type_responsibility.
  assert (Hadopt : negb (IsEmptyString
                           (s_ProviderType
                              (BaseStatus (object (set_responsible false
                                                     (set_valid false this))))))
                   && String.eqb (ptype p) "" = false).
  { simpl. destruct Hno as [Hno | Hno].
    - rewrite Hno. reflexivity.
    - apply String.eqb_neq in Hno. rewrite Hno. apply andb_false_r. }
  rewrite Hadopt, Hz. simpl. rewrite Hs. simpl.
  apply Z.ltb_lt in Hnow. rewrite Hnow.
  destruct (RemoveFinalizer (object this) st) as [st1 e]. reflexivity.
Qed.

Lemma Setup_responsible_fields (this : EntryVersion) (p : EntryPremise) :
  responsible (Setup_responsible this p) = true
  /\ object (Setup_responsible this p) = object this
  /\ s_State (status (Setup_responsible this p)) = s_State (status this)
  /\ valid (Setup_responsible this p) = valid this.
Proof.
  unfold Setup_responsible.
  destruct (provider p); [destruct (o_TTL (object this)) |]; simpl; auto.
Qed.









(** C4, as the code has it: for an entry without resolved zone and without
    provider type, created less than the reschedule delay ago, [Setup]
    writes no field of the status, sends no event and changes no reference;
    it asks the store to take the finalizer from the object and returns a
    reschedule after the delay. *)
Theorem Setup_grace_period (fuel : nat) (st : state) (this : EntryVersion) (p : EntryPremise)
        (err : error) (config : Config) :
  zoneid p = "" ->
  IsEmptyString (s_ProviderType (status this)) = true ->
  IsEmptyString (s_ProviderType (BaseStatus (object this))) = true \/ ptype p <> "" ->
  Now st < o_CreationTimestamp (object this) + RescheduleDelay config ->
  exists st' this',
    Setup fuel st this p err config = Val (st', this', RescheduleAfter (RescheduleDelay config))
    /\ object this' = object this
    /\ status this' = status this
    /\ events st' = events st
    /\ references st' = references st
    /\ st' = fst (RemoveFinalizer (object this) st)
    /\ (finalizer_error st = None ->
        finalizers st' = finalizers st ∖ {[ o_ObjectName (object this) ]}).
Proof.
  intros Hz Hs Hno Hnow.
  exists (fst (RemoveFinalizer (object this) st)), (set_responsible false (set_valid false this)).
  split; [now apply grace_period_result |].
  unfold RemoveFinalizer.
  destruct (finalizer_error st); simpl; repeat split; auto; discriminate.
Qed.




(* ===================================================================== *)
(** * The properties on example objects *)
(* ===================================================================== *)

Import Examples.

Lemma UpdateStatus_pending_noop_witness :
  UpdateStatus (controller empty_cache) ready_entry STATE_PENDING "waiting"
  = (ready_entry, (false, None)).
Proof.
  apply (UpdateStatus_pending_noop (controller empty_cache) ready_entry "waiting").
  discriminate.
Defined.

Lemma merge_sort_contract :
  (forall l : EntryList, Permutation l (merge_sort key_le l))
  /\ (forall l : EntryList, Sorted key_le (merge_sort key_le l)).
Proof.
  split; intros l.
  - symmetry. apply merge_sort_Permutation.
  - apply (@Sorted_merge_sort _ key_le _ key_le_total).
Qed.

Lemma Lock_all_or_none_witness :
  match Lock (merge_sort key_le) cancel_2 batch (mkLocks [] []) with
  | (this', s', err) =>
      Permutation batch this'
      /\ StronglySorted key_le this'
      /\ match err with
         | None =>
             held s' = (rev (map lock this') ++ [])%list
             /\ history s' = ([] ++ map Acquired (map lock this'))%list
         | Some e =>
             held s' = []
             /\ exists pre x post,
                  this' = (pre ++ x :: post)%list
                  /\ cancel_2 ([] ++ map Acquired (map lock pre))%list (lock x) = Some e
                  /\ history s'
                     = ([] ++ map Acquired (map lock pre)
                                  ++ [Cancelled (lock x)]
                                  ++ map Released (rev (map lock pre)))%list
         end
  end.
Proof.
  exact (Lock_all_or_none (merge_sort key_le) cancel_2
           (proj1 merge_sort_contract) (proj2 merge_sort_contract)
           batch (mkLocks [] [])).
Defined.

Example Lock_cancelled_example :
  Lock (merge_sort key_le) cancel_2 batch (mkLocks [] [])
  = ([entry_of 3 "default/a"; entry_of 1 "default/b"; entry_of 2 "default/c"],
     mkLocks [] [Acquired 3; Acquired 1; Cancelled 2; Released 1; Released 3],
     Some "context canceled").
Proof. vm_compute. reflexivity. Qed.

Example Lock_all_example :
  Lock (merge_sort key_le) no_cancel batch (mkLocks [] [])
  = ([entry_of 3 "default/a"; entry_of 1 "default/b"; entry_of 2 "default/c"],
     mkLocks [2; 1; 3]%nat [Acquired 3; Acquired 1; Acquired 2],
     None).
Proof. vm_compute. reflexivity. Qed.


Lemma Setup_grace_period_witness :
  exists st' this',
    Setup 1 (controller empty_cache) new_entry no_premise None config
    = Val (st', this', RescheduleAfter 120)
    /\ object this' = object new_entry
    /\ status this' = status new_entry
    /\ events st' = []
    /\ references st' = ∅
    /\ st' = fst (RemoveFinalizer (object new_entry) (controller empty_cache))
    /\ (finalizer_error (controller empty_cache) = None ->
        finalizers st' = finalizers (controller empty_cache) ∖ {[ name ]}).
Proof.
  apply (Setup_grace_period 1 (controller empty_cache) new_entry no_premise None config).
  - reflexivity.
  - reflexivity.
  - left. reflexivity.
  - simpl. lia.
Defined.

Lemma grace_period_removes_finalizer :
  zoneid no_premise = ""
  /\ IsEmptyString (s_ProviderType (status new_entry)) = true
  /\ Now (controller empty_cache) < o_CreationTimestamp (object new_entry) + RescheduleDelay config
  /\ (exists st' this' r,
         Setup 1 (controller empty_cache) new_entry no_premise None config = Val (st', this', r)
         /\ name ∈ finalizers (controller empty_cache)
         /\ name ∉ finalizers st')
  /\ s_ProviderType (status ready_entry) = Some "mock"
  /\ ptype no_premise <> "mock"
  /\ Now (controller empty_cache) < o_CreationTimestamp (object ready_entry) + RescheduleDelay config
  /\ (exists st' this',
         Setup 1 (controller empty_cache) ready_entry no_premise None config
         = Val (st', this', Succeeded)
         /\ s_State (BaseStatus (object ready_entry)) = STATE_READY
         /\ s_State (BaseStatus (object this')) = ""
         /\ s_Zone (BaseStatus (object this')) = None
         /\ name ∉ finalizers st').
Proof.
  split; [reflexivity |]. split; [reflexivity |]. split; [simpl; lia |].
  split.
  { exists (fst (RemoveFinalizer (object new_entry) (controller empty_cache))),
           (set_responsible false (set_valid false new_entry)),
           (RescheduleAfter 120).
    split.
    - apply grace_period_result;
        [reflexivity | reflexivity | left; reflexivity | simpl; lia].
    - split; [apply (bool_decide_eq_true_1 _) | apply (bool_decide_eq_false_1 _)];
        vm_compute; reflexivity. }
  split; [reflexivity |]. split; [discriminate |]. split; [simpl; lia |].
  eexists _, _. split; [vm_compute; reflexivity |].
  repeat split; try reflexivity.
  apply (bool_decide_eq_false_1 _). vm_compute. reflexivity.
Qed.


Example too_many_targets_example :
  match Setup 1 (controller empty_cache) many_entry premise None config with
  | Val (st', this', r) =>
      r = Recheck "too many targets" 84600000000000
      /\ interval this' = 84600
      /\ s_State (status this') = STATE_STALE
      /\ s_State (BaseStatus (object this')) = STATE_STALE
      /\ events st' = [mkEvent name EventTypeWarning "dnslookup restriction"
                               "too many CNAME targets: 12"]
  | _ => False
  end.
Proof. vm_compute. repeat split. Qed.


Example duplicate_targets_example :
  validate 1 (controller empty_cache) (duplicate_entry (Some 60)) premise
  = Val (DelRef name (controller empty_cache),
         (Some (SpecObject (object (duplicate_entry (Some 60)))),
          [NewTarget RS_A "1.1.1.1" 300; NewTarget RS_CNAME "a.example.com" 300],
          ["dns entry " ++ quote "default/www" ++ " has duplicate target " ++ quote "A(1.1.1.1)";
           "dns entry " ++ quote "default/www" ++ " has duplicate target " ++ quote "A(1.1.1.1)"],
          None)).
Proof. vm_compute. reflexivity. Qed.


Lemma validate_targets_and_text_witness :
  (exists st' spec T W e,
      validate 1 (controller empty_cache) both_entry premise
      = Val (st', (spec, T, W, Some e)))
  /\ validate 1 (controller empty_cache) neither_entry premise
     = Val (DelRef name (controller empty_cache),
            (Some (SpecObject (object neither_entry)), [], [],
             Some "no target or text specified"))
  /\ (exists W,
         validate 1 (controller empty_cache) empty_text_entry premise
         = Val (DelRef name (controller empty_cache),
                (Some (SpecObject (object empty_text_entry)), [], W,
                 Some "dns entry has only empty text"))).
Proof.
  split; [| split].
  - apply (proj1 (validate_targets_and_text 1 (controller empty_cache) both_entry premise
                    (DelRef name (controller empty_cache))
                    (inl (SpecObject (object both_entry))) eq_refl)).
    left. split; reflexivity.
  - apply (proj2 (validate_targets_and_text 1 (controller empty_cache) neither_entry premise
                    (DelRef name (controller empty_cache))
                    (inl (SpecObject (object neither_entry))) eq_refl)
                 (SpecObject (object neither_entry)) None);
      try reflexivity; try discriminate.
  - apply (proj2 (validate_targets_and_text 1 (controller empty_cache) empty_text_entry premise
                    (DelRef name (controller empty_cache))
                    (inl (SpecObject (object empty_text_entry))) eq_refl)
                 (SpecObject (object empty_text_entry)) None);
      try reflexivity; try discriminate.
    repeat constructor.
Defined.

Lemma complete_self_reference (fuel : nat) :
  forall (st : state) (prefix : string),
    GetCached st = self_cache ->
    CheckAccessWithRealms st = (fun _ _ => None) ->
    complete fuel st self_object self_object prefix = Timeout.
Proof.
  induction fuel as [| fuel IH]; intros st prefix Hc Ha; [reflexivity |].
  cbn [complete self_object entry o_Reference ref_Name ref_Namespace String.eqb negb
       Ascii.eqb Bool.eqb].
  cbn [AddRef set_references GetCached CheckAccessWithRealms].
  rewrite Hc, Ha. unfold self_cache at 1.
  rewrite IH; [reflexivity | exact Hc | exact Ha].
Qed.

(** An entry with empty text values only fails with another error than
    "no target or text specified"; for an entry with targets and text that
    refers to itself the validation does not return. *)
Lemma empty_text_and_self_reference :
  (o_Targets (object empty_text_entry) = None
   /\ o_Text (object empty_text_entry) = Some [""]
   /\ validate 1 (controller empty_cache) empty_text_entry premise
      = Val (DelRef name (controller empty_cache),
             (Some (SpecObject (object empty_text_entry)), [],
              ["dns entry " ++ quote "default/www" ++ " has empty text"],
              Some "dns entry has only empty text")))
  /\ (o_Targets (object self_entry) = Some ["1.1.1.1"]
      /\ o_Text (object self_entry) = Some ["hello"]
      /\ forall fuel, validate fuel (controller self_cache) self_entry premise = Timeout).
Proof.
  split; [repeat split |]. split; [reflexivity |]. split; [reflexivity |].
  intros fuel. unfold validate.
  change (ValidateDomainName (controller self_cache) (o_DNSName (object self_entry)))
    with (@None string).
  change (ValidateSpecial (controller self_cache) (object self_entry)) with (@None string).
  change (object self_entry) with self_object.
  rewrite complete_self_reference; reflexivity.
Qed.


Example Setup_ready_example :
  match Setup 1 (controller empty_cache) ready_entry premise None config with
  | Val (st', this', r) =>
      r = Succeeded /\ s_State (status this') = STATE_READY /\ valid this' = true
      /\ responsible this' = true
  | _ => False
  end.
Proof. vm_compute. repeat split. Qed.

(** The same entry after a change of its specification: generation 2 with
    observed generation 1 gives PENDING, in memory and in the object. *)
Example Setup_pending_example :
  match Setup 1 (controller empty_cache) changed_entry premise None config with
  | Val (st', this', r) =>
      r = Succeeded /\ s_State (status this') = STATE_PENDING /\ valid this' = true
      /\ s_State (BaseStatus (object this')) = STATE_PENDING
  | _ => False
  end.
Proof. vm_compute. repeat split. Qed.

Lemma heap_wf_example : heap_wf heap.
Proof.
  intros a e H. unfold heap in H. simpl in H.
  apply lookup_singleton_Some in H as [_ <-]. simpl. set_solver.
Qed.

Lemma Update_keeps_or_replaces_witness :
  (exists st' e',
      Update (controller empty_cache) heap 0 changed_entry
      = Some (st', mkHeap (<[0%nat := e']> (cells heap)) (locks heap), 0%nat)
      /\ version e' = changed_entry
      /\ key e' = "default/www"
      /\ lock e' = 7%nat
      /\ createdAt e' = 900)
  /\ (exists h' a e',
         Update (controller empty_cache) heap 0 moved_entry
         = Some (controller empty_cache, h', a)
         /\ a <> 0%nat
         /\ version e' = moved_entry
         /\ lock e' <> 7%nat
         /\ cells h' !! a = Some e'
         /\ cells h' !! 0%nat
            = Some (mkEntry 7 "default/www" 900 false false "zone-1" ready_entry)).
Proof.
  pose proof (Update_keeps_or_replaces (controller empty_cache) heap 0
                (mkEntry 7 "default/www" 900 false false "zone-1" ready_entry))
    as U.
  split.
  - destruct (U changed_entry heap_wf_example eq_refl) as [K _].
    destruct (K eq_refl) as (st' & e' & H & Hv & Hk & Hl & Hc).
    exists st', e'. auto.
  - destruct (U moved_entry heap_wf_example eq_refl) as [_ R].
    destruct R as (h' & a & e' & H & Hne & _ & Hl & Hv & _ & _ & Hlock & Hold & _).
    { discriminate. }
    exists h', a, e'. repeat split; auto.
    apply (Hlock 0%nat _ eq_refl).
Defined.

(** Reference completion of an entry that takes its target from the entry
    [default/origin]: neither entry sets a TTL, an owner or a lookup
    interval, so none of them is set in the completed specification. *)
Example complete_reference_example :
  exists st', 
    complete 2 (controller origin_cache) (object referring_entry) (object referring_entry) ""
    = Val (st', inl (SpecMod (mkMod (object referring_entry) (Some ["1.1.1.1"]) None
                                    None None None))).
Proof. eexists. vm_compute. reflexivity. Qed.

(** On this completed specification the validation asks for the TTL and
    gets no result, however deep the calls may go. *)
Example validate_reference_gives_no_result :
  forall fuel, validate fuel (controller origin_cache) referring_entry premise = Timeout.
Proof.
  intros fuel. destruct fuel as [| [| fuel]]; [reflexivity | reflexivity |].
  unfold validate.
  change (ValidateDomainName (controller origin_cache) (o_DNSName (object referring_entry)))
    with (@None string).
  change (ValidateSpecial (controller origin_cache) (object referring_entry))
    with (@None string).
  assert (Hc : exists st',
             complete (S (S fuel)) (controller origin_cache) (object referring_entry)
                      (object referring_entry) ""
             = Val (st', inl (SpecMod (mkMod (object referring_entry) (Some ["1.1.1.1"]) None
                                             None None None)))).
  { eexists. reflexivity. }
  destruct Hc as [st' Hc]. rewrite Hc. cbn [rbind].
  change (zonedomain premise =? dnsname referring_entry)%string with false.
  cbn [GetTargets GetText dnsSpecModification_GetTargets dnsSpecModification_GetText
       mod_targets mod_text isNil negb len elems default length].
  cbn [GetTTL]. rewrite GetTTL_unset; reflexivity.
Qed.



(* ===================================================================== *)
(** * Further properties of the entry engine *)
(* ===================================================================== *)

(** ** Entry.Before *)

Lemma CompareLt_irrefl (s : string) : CompareLt s s = false.
Proof.
  unfold CompareLt. pose proof (String.compare_antisym s s) as H.
  destruct (String.compare s s); try reflexivity; discriminate.
Qed.

Lemma CompareLt_asym (a b : string) : CompareLt a b = true -> CompareLt b a = false.
Proof.
  unfold CompareLt. rewrite (String.compare_antisym a b).
  destruct (String.compare b a); simpl; congruence.
Qed.

Lemma CompareLt_trans (a b c : string) :
  CompareLt a b = true -> CompareLt b c = true -> CompareLt a c = true.
Proof.
  rewrite !CompareLt_lt. apply OrderedTypeEx.String_as_OT.lt_trans.
Qed.

(** X1: [Before] is a strict order on entries: no entry is before itself,
    of two entries at most one is before the other, and the relation is
    transitive; every entry is before [nil]. Two entries whose objects have
    different printed names are always ordered. *)
Theorem Before_strict_order (a b c : Entry) :
  Before a None = true
  /\ Before a (Some a) = false
  /\ (Before a (Some b) = true -> Before b (Some a) = false)
  /\ (Before a (Some b) = true -> Before b (Some c) = true -> Before a (Some c) = true)
  /\ (ObjectName_String (ObjectName_of (version a))
      <> ObjectName_String (ObjectName_of (version b)) ->
      Before a (Some b) = true \/ Before b (Some a) = true).
Proof.
  unfold Before.
  set (ta := o_CreationTimestamp (object (version a))).
  set (tb := o_CreationTimestamp (object (version b))).
  set (tc := o_CreationTimestamp (object (version c))).
  set (na := ObjectName_String (ObjectName_of (version a))).
  set (nb := ObjectName_String (ObjectName_of (version b))).
  set (nc := ObjectName_String (ObjectName_of (version c))).
  split; [reflexivity |]. split.
  { rewrite Z.eqb_refl. apply CompareLt_irrefl. }
  split.
  { destruct (ta =? tb) eqn:E.
    - apply Z.eqb_eq in E. rewrite <- E, Z.eqb_refl. apply CompareLt_asym.
    - rewrite Z.eqb_sym, E. intros H. apply Z.ltb_lt in H. apply Z.ltb_ge. lia. }
  split.
  { destruct (ta =? tb) eqn:Eab; destruct (tb =? tc) eqn:Ebc;
      destruct (ta =? tc) eqn:Eac;
      repeat match goal with
             | H : (_ =? _) = true |- _ => apply Z.eqb_eq in H
             | H : (_ =? _) = false |- _ => apply Z.eqb_neq in H
             end;
      intros H1 H2;
      repeat match goal with
             | H : (_ <? _) = true |- _ => apply Z.ltb_lt in H
             end;
      try (apply Z.ltb_lt); try lia.
    eapply CompareLt_trans; eauto. }
  intros Hne.
  destruct (ta =? tb) eqn:E.
  - apply Z.eqb_eq in E. rewrite <- E, Z.eqb_refl.
    destruct (CompareLt na nb) eqn:H1; [now left |].
    destruct (CompareLt nb na) eqn:H2; [now right |].
    exfalso. apply Hne. now apply CompareLt_total.
  - rewrite Z.eqb_sym, E. apply Z.eqb_neq in E.
    destruct (ta <? tb) eqn:L; [now left |].
    right. apply Z.ltb_ge in L. apply Z.ltb_lt. lia.
Qed.

(** ** targetList *)

Lemma string_app_assoc (a b c : string) : (a ++ b) ++ c = a ++ (b ++ c).
Proof.
  induction a as [| x a IH]; [reflexivity |].
  change (String x ((a ++ b) ++ c) = String x (a ++ (b ++ c))).
  now rewrite IH.
Qed.

Lemma string_app_nil_r (a : string) : a ++ "" = a.
Proof.
  induction a as [| x a IH]; [reflexivity |].
  change (String x (a ++ "") = String x a). now rewrite IH.
Qed.

Lemma Join_snoc (done : list string) (x : string) :
  Join (done ++ [x])%list ", " = Join done ", " ++ separator_after done ++ x.
Proof.
  induction done as [| d ds IH]; [reflexivity |].
  destruct ds as [| d2 ds'].
  - reflexivity.
  - change (d ++ ", " ++ Join ((d2 :: ds') ++ [x])%list ", "
            = (d ++ ", " ++ Join (d2 :: ds') ", ") ++ ", " ++ x).
    rewrite IH. simpl separator_after.
    now rewrite !string_app_assoc.
Qed.

Lemma targetList_loop (ts : Targets) :
  forall (l : list string) (msg : string) (done : list string),
    fold_left (fun '(list, msg, sep) t =>
                 (append list (GetHostName t), msg ++ sep ++ Target_String t, ", "))
              ts (l, msg ++ Join done ", ", separator_after done)
    = ((l ++ map GetHostName ts)%list,
       msg ++ Join (done ++ map Target_String ts)%list ", ",
       separator_after (done ++ map Target_String ts)%list).
Proof.
  induction ts as [| t ts IH]; intros l msg done.
  - simpl. now rewrite !app_nil_r.
  - cbn [fold_left map].
    replace ((msg ++ Join done ", ") ++ separator_after done ++ Target_String t)
      with (msg ++ Join (done ++ [Target_String t])%list ", ")
      by (rewrite Join_snoc; now rewrite string_app_assoc).
    specialize (IH (append l (GetHostName t)) msg (done ++ [Target_String t])%list).
    replace (separator_after (done ++ [Target_String t])%list) with ", " in IH
      by (destruct done; reflexivity).
    rewrite IH. unfold append. now rewrite <- !app_assoc.
Qed.

Lemma targetList_spec (ts : Targets) :
  targetList ts
  = (map GetHostName ts,
     "update effective targets: [" ++ Join (map Target_String ts) ", " ++ "]").
Proof.
  unfold targetList.
  pose proof (targetList_loop ts [] "update effective targets: [" []) as H.
  simpl Join in H. rewrite string_app_nil_r in H. simpl separator_after in H.
  simpl app in H. rewrite H. now rewrite string_app_assoc.
Qed.

(** X2: [targetList] returns the host names of the targets in their order,
    and the message "update effective targets: [...]" with the targets
    separated by ", ". *)
Theorem targetList_closed_form (ts : Targets) :
  targetList ts
  = (map GetHostName ts,
     "update effective targets: [" ++ Join (map Target_String ts) ", " ++ "]").
Proof.
  unfold targetList.
  pose proof (targetList_loop ts [] "update effective targets: [" []) as H.
  simpl Join in H. rewrite string_app_nil_r in H. simpl separator_after in H.
  simpl app in H. rewrite H. now rewrite string_app_assoc.
Qed.

(** ** lookupHosts and normalizeTargets *)

Lemma lookupHosts_loop (ips : list IP) :
  forall (v4 v6 : list string),
    fold_left (fun '(v4, v6) ip =>
                 if ip_To4 ip then (append v4 (ip_String ip), v6)
                 else if ip_To16 ip then (v4, append v6 (ip_String ip))
                 else (v4, v6))
              ips (v4, v6)
    = ((v4 ++ map ip_String (List.filter ip_To4 ips))%list,
       (v6 ++ map ip_String
                  (List.filter (fun ip => negb (ip_To4 ip) && ip_To16 ip) ips))%list).
Proof.
  induction ips as [| ip ips IH]; intros v4 v6; simpl.
  - now rewrite !app_nil_r.
  - destruct (ip_To4 ip); simpl.
    + rewrite IH. unfold append. now rewrite <- app_assoc.
    + destruct (ip_To16 ip); simpl; rewrite IH; unfold append;
        now rewrite <- ?app_assoc.
Qed.

(** X3: [lookupHosts] fails with the error of the resolver; otherwise it
    returns the IPv4 addresses and the IPv6 addresses among the resolved
    addresses, each in the order of the resolver, and fails when there is
    none of either kind. It never succeeds without an address. *)
Theorem lookupHosts_addresses (st : state) (hostname : string) :
  lookupHosts st hostname
  = match LookupIP st hostname with
    | inr e => inr e
    | inl ips =>
        let v4 := map ip_String (List.filter ip_To4 ips) in
        let v6 := map ip_String
                      (List.filter (fun ip => negb (ip_To4 ip) && ip_To16 ip) ips) in
        match v4, v6 with
        | [], [] => inr (hostname ++ " has no IPv4/IPv6 address (of "
                         ++ pretty (Z.of_nat (length ips)) ++ " addresses)")
        | _, _ => inl (v4, v6)
        end
    end
  /\ lookupHosts st hostname <> inl ([], []).
Proof.
  assert (H : lookupHosts st hostname
  = match LookupIP st hostname with
    | inr e => inr e
    | inl ips =>
        let v4 := map ip_String (List.filter ip_To4 ips) in
        let v6 := map ip_String
                      (List.filter (fun ip => negb (ip_To4 ip) && ip_To16 ip) ips) in
        match v4, v6 with
        | [], [] => inr (hostname ++ " has no IPv4/IPv6 address (of "
                         ++ pretty (Z.of_nat (length ips)) ++ " addresses)")
        | _, _ => inl (v4, v6)
        end
    end).
  { unfold lookupHosts. destruct (LookupIP st hostname) as [ips | e]; [| reflexivity].
    rewrite lookupHosts_loop. simpl app.
    destruct (map ip_String (List.filter ip_To4 ips));
      destruct (map ip_String (List.filter (fun ip => negb (ip_To4 ip) && ip_To16 ip) ips));
      reflexivity. }
  split; [exact H |]. rewrite H.
  destruct (LookupIP st hostname) as [ips | e]; [| discriminate].
  simpl.
  destruct (map ip_String (List.filter ip_To4 ips));
    destruct (map ip_String (List.filter (fun ip => negb (ip_To4 ip) && ip_To16 ip) ips));
    discriminate.
Qed.

Lemma add_addresses_spec (ty : RecordType) (ttl : Z) (addrs : list string) :
  forall (result : Targets),
    List.NoDup (map GetHostName result) ->
    exists extra,
      add_addresses ty ttl addrs result = (result ++ extra)%list
      /\ List.NoDup (map GetHostName (result ++ extra))
      /\ Forall (fun r => GetRecordType r = ty /\ Target_GetTTL r = ttl
                          /\ In (GetHostName r) addrs) extra
      /\ (forall a, In a addrs -> In a (map GetHostName (result ++ extra))).
Proof.
  unfold add_addresses.
  induction addrs as [| a addrs IH]; intros result Hnd.
  - exists []. rewrite app_nil_r. simpl. repeat split; auto. intros a [].
  - cbn [fold_left].
    destruct (existsb (fun old => String.eqb (GetHostName old) a) result) eqn:Hex.
    + destruct (IH result Hnd) as (extra & Heq & Hn & Hall & Hin).
      exists extra. split; [exact Heq |]. split; [exact Hn |]. split.
      * eapply Forall_impl; [exact Hall |]. simpl. intros r (? & ? & ?). auto.
      * intros b [<- | Hb]; [| now apply Hin].
        apply existsb_exists in Hex as (old & Hold & Heqb).
        apply String.eqb_eq in Heqb. subst a.
        rewrite map_app. apply in_or_app. left. now apply in_map.
    + assert (Hnd' : List.NoDup (map GetHostName (append result (NewTarget ty a ttl)))).
      { unfold append. rewrite map_app. simpl.
        apply List.NoDup_app; [exact Hnd | repeat constructor; intros [] |].
        intros x Hx [Hxa | []]. simpl in Hxa. subst x.
        apply in_map_iff in Hx as (old & Hold & Hin).
        assert (Ht : existsb (fun old => String.eqb (GetHostName old) a) result = true).
        { apply existsb_exists. exists old. split; [exact Hin |].
          rewrite Hold. apply String.eqb_refl. }
        congruence. }
      destruct (IH _ Hnd') as (extra & Heq & Hn & Hall & Hin).
      exists (NewTarget ty a ttl :: extra).
      unfold append in *. rewrite <- app_assoc in Heq, Hn, Hin. simpl in Heq, Hn, Hin.
      split; [exact Heq |]. split; [exact Hn |]. split.
      * constructor; [simpl; auto |].
        eapply Forall_impl; [exact Hall |]. simpl. intros r (? & ? & ?). auto.
      * intros b [<- | Hb]; [| now apply Hin].
        rewrite map_app. apply in_or_app. right. simpl. now left.
Qed.

Lemma set_events_id (st : state) : set_events (events st) st = st.
Proof. destruct st; reflexivity. Qed.

(** The loop of [normalizeTargets] over the targets, from any state and
    any list of targets without two equal hosts. *)
Lemma resolve_loop (obj : DNSObject) (T : Targets) :
  forall (st : state) (R : Targets),
    List.NoDup (map GetHostName R) ->
    exists extra,
      fold_left (fun '(st, result) t =>
                   match lookupHosts st (GetHostName t) with
                   | inl (ipv4addrs, ipv6addrs) =>
                       let result := add_addresses RS_A (Target_GetTTL t) ipv4addrs result in
                       let result := add_addresses RS_AAAA (Target_GetTTL t) ipv6addrs result in
                       (st, result)
                   | inr err =>
                       let w := "cannot lookup '" ++ GetHostName t ++ "': " ++ err in
                       (ObjectEvent obj EventTypeNormal "dnslookup" w st, result)
                   end)
                T (st, R)
      = (set_events (events st ++ lookup_failures st obj T)%list st, (R ++ extra)%list)
      /\ List.NoDup (map GetHostName (R ++ extra))
      /\ Forall (fun r =>
                   exists t v4 v6,
                     In t T /\ lookupHosts st (GetHostName t) = inl (v4, v6)
                     /\ Target_GetTTL r = Target_GetTTL t
                     /\ (GetRecordType r = RS_A /\ In (GetHostName r) v4
                         \/ GetRecordType r = RS_AAAA /\ In (GetHostName r) v6))
                extra
      /\ (forall t v4 v6 a,
             In t T -> lookupHosts st (GetHostName t) = inl (v4, v6) ->
             In a (v4 ++ v6)%list -> In a (map GetHostName (R ++ extra))).
Proof.
  induction T as [| t T IH]; intros st R Hnd.
  - exists []. simpl. rewrite !app_nil_r, set_events_id.
    repeat split; auto. intros t v4 v6 a [].
  - cbn [fold_left].
    destruct (lookupHosts st (GetHostName t)) as [[v4 v6] | err] eqn:Hl.
    + cbn zeta.
      destruct (add_addresses_spec RS_A (Target_GetTTL t) v4 R Hnd)
        as (e1 & Heq1 & Hn1 & Hall1 & Hin1).
      destruct (add_addresses_spec RS_AAAA (Target_GetTTL t) v6 _ Hn1)
        as (e2 & Heq2 & Hn2 & Hall2 & Hin2).
      rewrite Heq1, Heq2.
      destruct (IH st _ Hn2) as (e3 & Heq3 & Hn3 & Hall3 & Hin3).
      exists (e1 ++ e2 ++ e3)%list.
      split.
      { refine (eq_trans Heq3 _). rewrite <- !app_assoc.
        unfold lookup_failures. simpl. rewrite Hl. reflexivity. }
      rewrite <- !app_assoc in Hn3, Hin3.
      split; [exact Hn3 |]. split.
      * apply Forall_app. split; [| apply Forall_app; split].
        -- eapply Forall_impl; [exact Hall1 |]. simpl. intros r (Hk & Ht & Hi).
           exists t, v4, v6.
           split; [now left |]. split; [exact Hl |]. split; [exact Ht |]. left. auto.
        -- eapply Forall_impl; [exact Hall2 |]. simpl. intros r (Hk & Ht & Hi).
           exists t, v4, v6.
           split; [now left |]. split; [exact Hl |]. split; [exact Ht |]. right. auto.
        -- eapply Forall_impl; [exact Hall3 |]. simpl.
           intros r (t' & w4 & w6 & Hi & Hl' & Ht & Hk).
           exists t', w4, w6.
           split; [now right |]. split; [exact Hl' |]. split; [exact Ht |]. exact Hk.
      * intros t' w4 w6 a [<- | Ht'] Hl' Ha.
        -- rewrite Hl in Hl'. inversion Hl'; subst w4 w6.
           apply in_app_or in Ha as [Ha | Ha].
           ++ apply Hin1 in Ha. rewrite !map_app in *.
              apply in_app_or in Ha as [Ha | Ha]; apply in_or_app; auto.
              right. apply in_or_app. auto.
           ++ apply Hin2 in Ha. rewrite <- app_assoc in Ha. rewrite !map_app in *.
              apply in_app_or in Ha as [Ha | Ha]; apply in_or_app; auto.
              right. apply in_app_or in Ha as [Ha | Ha]; apply in_or_app; auto.
              right. apply in_or_app. auto.
        -- eapply Hin3; eauto.
    + cbn zeta.
      destruct (IH (ObjectEvent obj EventTypeNormal "dnslookup"
                      ("cannot lookup '" ++ GetHostName t ++ "': " ++ err) st) R Hnd)
        as (e3 & Heq3 & Hn3 & Hall3 & Hin3).
      exists e3. split.
      { refine (eq_trans Heq3 _). unfold lookup_failures at 2. simpl flat_map. rewrite Hl.
        unfold ObjectEvent, append. simpl. rewrite <- app_assoc. reflexivity. }
      split; [exact Hn3 |]. split.
      * eapply Forall_impl; [exact Hall3 |]. simpl.
        intros r (t' & w4 & w6 & Hi & Hl' & Ht & Hk).
        exists t', w4, w6.
        split; [now right |]. split; [exact Hl' |]. split; [exact Ht |]. exact Hk.
      * intros t' w4 w6 a [<- | Ht'] Hl' Ha.
        -- rewrite Hl in Hl'. discriminate.
        -- eapply Hin3; eauto.
Qed.

(** X4: for more than one and at most 11 targets of which the first is a
    CNAME, [normalizeTargets] is ok and returns address targets only: no
    two of them have the same address, each is an IPv4 address (kind A) or
    an IPv6 address (kind AAAA) that the lookup of one of the hosts
    returned, with the TTL of that host, and every address that a lookup
    returned is among them. A host that cannot be looked up gives one
    "dnslookup" event and is left out; nothing else of the state changes. *)
Theorem normalizeTargets_resolved (st : state) (obj : DNSObject) (T : Targets) :
  multiCNAME T = true ->
  (length T <= 11)%nat ->
  exists R,
    normalizeTargets st obj T
    = (set_events (events st ++ lookup_failures st obj T)%list st, (R, true, true))
    /\ List.NoDup (map GetHostName R)
    /\ Forall (fun r =>
                 exists t v4 v6,
                   In t T /\ lookupHosts st (GetHostName t) = inl (v4, v6)
                   /\ Target_GetTTL r = Target_GetTTL t
                   /\ (GetRecordType r = RS_A /\ In (GetHostName r) v4
                       \/ GetRecordType r = RS_AAAA /\ In (GetHostName r) v6))
              R
    /\ (forall t v4 v6 a,
           In t T -> lookupHosts st (GetHostName t) = inl (v4, v6) ->
           In a (v4 ++ v6)%list -> In a (map GetHostName R)).
Proof.
  intros Hm Hlen. unfold normalizeTargets. unfold multiCNAME in Hm. rewrite Hm.
  cbn [negb].
  assert (H11 : (11 <? Z.of_nat (length T)) = false) by (apply Z.ltb_ge; lia).
  rewrite H11.
  destruct (resolve_loop obj T st [] (List.NoDup_nil _)) as (R & Heq & Hn & Hall & Hin).
  simpl app in *. exists R. split; [| auto].
  match goal with
  | |- context [fold_left ?f T ?i] =>
      assert (E : fold_left f T i
                  = (set_events (events st ++ lookup_failures st obj T)%list st, R))
        by exact Heq;
      rewrite E
  end.
  reflexivity.
Qed.

(** ** RequiresUpdateFor and Update *)

Lemma Has_member (ts : Targets) (t : Target) : In t ts -> Has ts t = true.
Proof.
  intros H. unfold Has. apply existsb_exists. exists t. split; [exact H |].
  now apply bool_decide_eq_true_2.
Qed.

Lemma DifferFrom_same (ts : Targets) : DifferFrom ts ts = false.
Proof.
  unfold DifferFrom. rewrite Nat.eqb_refl. simpl.
  apply negb_false_iff. apply forallb_forall. intros t Ht. now apply Has_member.
Qed.

Lemma Int64Equal_refl (a : option Z) : Int64Equal a a = true.
Proof. destruct a; simpl; [apply Z.eqb_refl | reflexivity]. Qed.

(** An entry version requires no update for itself: compared with itself
    there is no reason for an update, and no refresh. *)
Lemma RequiresUpdateFor_same (e : EntryVersion) :
  RequiresUpdateFor e e = ([], false).
Proof.
  unfold RequiresUpdateFor.
  rewrite !String.eqb_refl, Int64Equal_refl, !Bool.eqb_reflx, DifferFrom_same, Z.ltb_irrefl.
  reflexivity.
Qed.

(** What [Update] does to the entry at the address when the zoned DNS name
    stays. *)
Lemma Update_same_zone (st : state) (h : Heap) (this : nat) (e : Entry) (new : EntryVersion) :
  cells h !! this = Some e ->
  ZonedDNSName_of (version e) = ZonedDNSName_of new ->
  exists st' m,
    Update st h this new
    = Some (st',
            mkHeap (<[this := mkEntry (lock e) (key e) (createdAt e) m (updateRequired e)
                                      (activezone e) new]> (cells h)) (locks h),
            this)
    /\ (modified e = true -> m = true)
    /\ (valid new && String.eqb (s_State (status new)) STATE_STALE = true -> m = true)
    /\ (fst (RequiresUpdateFor (version e) new) = [] ->
        st' = st
        /\ m = modified e || (valid new && String.eqb (s_State (status new)) STATE_STALE)).
Proof.
  intros Hthis Hz. unfold Update. rewrite Hthis.
  rewrite (bool_decide_eq_true_2 _ Hz). cbn [negb].
  destruct (RequiresUpdateFor (version e) new) as [reasons refresh]. cbn [fst].
  destruct reasons as [| r reasons]; cbn [length Nat.eqb negb];
    destruct (valid new && String.eqb (s_State (status new)) STATE_STALE) eqn:Hv;
    cbn [version status]; rewrite ?Hv.
  - exists st, true. repeat split; auto. now rewrite orb_true_r.
  - exists st, (modified e). repeat split; auto; try discriminate. now rewrite orb_false_r.
  - eexists _, true. repeat split; auto; discriminate.
  - eexists _, true. repeat split; auto; discriminate.
Qed.

(** X5: [Update] keeps the heap in order: every lock of an entry is an
    allocated lock afterwards as before, no lock is forgotten, and every
    entry that was there is still there with its lock, its key and its
    creation time; an entry that was marked modified stays marked. The
    returned address holds an entry with the new version. *)
Theorem Update_heap_invariants (st : state) (h : Heap) (this : nat) (new : EntryVersion)
        (st1 : state) (h1 : Heap) (a1 : nat) :
  heap_wf h ->
  Update st h this new = Some (st1, h1, a1) ->
  heap_wf h1
  /\ locks h ⊆ locks h1
  /\ (forall b e, cells h !! b = Some e ->
        exists e', cells h1 !! b = Some e' /\ lock e' = lock e /\ key e' = key e
                   /\ createdAt e' = createdAt e
                   /\ (modified e = true -> modified e' = true))
  /\ (exists e1, cells h1 !! a1 = Some e1 /\ version e1 = new).
Proof.
  intros Hwf HU.
  destruct (cells h !! this) as [e |] eqn:Hthis.
  2: { unfold Update in HU. rewrite Hthis in HU. discriminate. }
  destruct (decide (ZonedDNSName_of (version e) = ZonedDNSName_of new)) as [Hz | Hz].
  - destruct (Update_same_zone st h this e new Hthis Hz) as (st' & m & Heq & Hm & _ & _).
    rewrite Heq in HU. inversion HU; subst st1 h1 a1. clear HU.
    split.
    { intros b eb Hb. simpl in *.
      destruct (decide (b = this)) as [-> | Hne].
      - rewrite lookup_insert_eq in Hb. inversion Hb; subst eb. simpl. eapply Hwf; eauto.
      - rewrite lookup_insert_ne in Hb by auto. eapply Hwf; eauto. }
    split; [simpl; set_solver |].
    split.
    { intros b eb Hb. simpl.
      destruct (decide (b = this)) as [-> | Hne].
      - rewrite lookup_insert_eq. eexists. split; [reflexivity |].
        rewrite Hthis in Hb. inversion Hb; subst eb. simpl. auto.
      - rewrite lookup_insert_ne by auto. exists eb. auto. }
    simpl. rewrite lookup_insert_eq. eexists. split; reflexivity.
  - unfold Update in HU. rewrite Hthis in HU.
    rewrite (bool_decide_eq_false_2 _ Hz) in HU. cbn [negb] in HU.
    destruct (NewEntry_fresh st h new Hwf)
      as (e' & Heq & Hnone & Hver & Hkey & Hcr & Hmod & Hnl & Hlock).
    rewrite Heq in HU. inversion HU; subst st1 h1 a1. clear HU.
    split.
    { intros b eb Hb. simpl in *.
      destruct (decide (b = fresh (dom (cells h)))) as [-> | Hne].
      - rewrite lookup_insert_eq in Hb. inversion Hb; subst eb. set_solver.
      - rewrite lookup_insert_ne in Hb by auto.
        apply elem_of_union_r. eapply Hwf; eauto. }
    split; [simpl; set_solver |].
    split.
    { intros b eb Hb. simpl.
      assert (Hne : fresh (dom (cells h)) <> b) by (intros <-; congruence).
      rewrite lookup_insert_ne by auto. exists eb. auto. }
    simpl. rewrite lookup_insert_eq. exists e'. auto.
Qed.

(** X6: [Update] with the same version a second time changes nothing: it
    returns the address it returned before, with the state and the heap as
    they are. *)
Theorem Update_twice (st : state) (h : Heap) (this : nat) (new : EntryVersion)
        (st1 : state) (h1 : Heap) (a1 : nat) :
  heap_wf h ->
  Update st h this new = Some (st1, h1, a1) ->
  Update st1 h1 a1 new = Some (st1, h1, a1).
Proof.
  intros Hwf HU.
  destruct (cells h !! this) as [e |] eqn:Hthis.
  2: { unfold Update in HU. rewrite Hthis in HU. discriminate. }
  assert (Hagain : forall (cs : gmap nat Entry) (ls : gset nat) (a : nat) (e1 : Entry),
             version e1 = new ->
             (valid new && String.eqb (s_State (status new)) STATE_STALE = true ->
              modified e1 = true) ->
             Update st1 (mkHeap (<[a := e1]> cs) ls) a new
             = Some (st1, mkHeap (<[a := e1]> cs) ls, a)).
  { intros cs ls a e1 Hv Hs.
    destruct (Update_same_zone st1 (mkHeap (<[a := e1]> cs) ls) a e1 new)
      as (st' & m & Heq & _ & _ & Hsame).
    - simpl. apply lookup_insert_eq.
    - now rewrite Hv.
    - rewrite Heq. rewrite Hv, RequiresUpdateFor_same in Hsame.
      destruct (Hsame eq_refl) as [-> ->]. simpl. rewrite insert_insert_eq.
      assert (Hm : modified e1 || (valid new && String.eqb (s_State (status new)) STATE_STALE)
                   = modified e1).
      { destruct (valid new && String.eqb (s_State (status new)) STATE_STALE);
          [rewrite (Hs eq_refl); reflexivity | apply orb_false_r]. }
      rewrite Hm. destruct e1; simpl in *. subst. reflexivity. }
  destruct (decide (ZonedDNSName_of (version e) = ZonedDNSName_of new)) as [Hz | Hz].
  - destruct (Update_same_zone st h this e new Hthis Hz) as (st' & m & Heq & _ & Hs & _).
    rewrite Heq in HU. inversion HU; subst st1 h1 a1. clear HU.
    apply Hagain; [reflexivity | exact Hs].
  - unfold Update in HU. rewrite Hthis in HU.
    rewrite (bool_decide_eq_false_2 _ Hz) in HU. cbn [negb] in HU.
    destruct (NewEntry_fresh st h new Hwf)
      as (e' & Heq & Hnone & Hver & Hkey & Hcr & Hmod & Hnl & Hlock).
    rewrite Heq in HU. inversion HU; subst st1 h1 a1. clear HU.
    apply Hagain; [exact Hver | intros _; exact Hmod].
Qed.

(** ** The registry of entries *)

(** X7: [AddEntry] puts the entry under the name of its object and leaves
    the other names alone; it returns the entry that was under the name
    before when that is another entry. A [Delete] of the entry just added
    takes the name out again, and gives back the registry as it was when the
    name was new. *)
Theorem Entries_AddEntry_Delete (h : Heap) (this : gmap ObjectName nat) (a : nat) (e : Entry) :
  cells h !! a = Some e ->
  exists this',
    Entries_AddEntry h this a
    = Some (this',
            match this !! ObjectName_of (version e) with
            | Some o => if Nat.eqb o a then None else Some o
            | None => None
            end)
    /\ this' !! ObjectName_of (version e) = Some a
    /\ (forall n, n <> ObjectName_of (version e) -> this' !! n = this !! n)
    /\ Entries_Delete h this' a = Some (delete (ObjectName_of (version e)) this)
    /\ (this !! ObjectName_of (version e) = None -> Entries_Delete h this' a = Some this).
Proof.
  intros Ha. exists (<[ObjectName_of (version e) := a]> this).
  assert (HD : Entries_Delete h (<[ObjectName_of (version e) := a]> this) a
               = Some (delete (ObjectName_of (version e)) this)).
  { unfold Entries_Delete. rewrite Ha, lookup_insert_eq, Nat.eqb_refl.
    now rewrite delete_insert_eq. }
  split.
  { unfold Entries_AddEntry. rewrite Ha.
    destruct (this !! ObjectName_of (version e)) as [o |]; [| reflexivity].
    destruct (Nat.eqb o a); reflexivity. }
  split; [apply lookup_insert_eq |].
  split; [intros n Hn; now apply lookup_insert_ne |].
  split; [exact HD |].
  intros Hnone. rewrite HD. now rewrite delete_id.
Qed.

(** X8: [Delete] takes an entry out of the registry only when the registry
    holds this very entry under the name of its object: for a name that is
    not there, or that belongs to another entry, the registry stays as it
    is. *)
Theorem Entries_Delete_guard (h : Heap) (this : gmap ObjectName nat) (a : nat) (e : Entry) :
  cells h !! a = Some e ->
  Entries_Delete h this a
  = Some (if decide (this !! ObjectName_of (version e) = Some a)
          then delete (ObjectName_of (version e)) this
          else this)
  /\ (this !! ObjectName_of (version e) <> Some a -> Entries_Delete h this a = Some this)
  /\ (forall this', Entries_Delete h this a = Some this' ->
        this' !! ObjectName_of (version e) <> Some a
        /\ forall n, n <> ObjectName_of (version e) -> this' !! n = this !! n).
Proof.
  intros Ha.
  assert (HD : Entries_Delete h this a
               = Some (if decide (this !! ObjectName_of (version e) = Some a)
                       then delete (ObjectName_of (version e)) this
                       else this)).
  { unfold Entries_Delete. rewrite Ha.
    destruct (this !! ObjectName_of (version e)) as [o |] eqn:Ho.
    - destruct (Nat.eqb o a) eqn:E.
      + apply Nat.eqb_eq in E. subst o. now rewrite decide_True.
      + apply Nat.eqb_neq in E. rewrite decide_False; [reflexivity | congruence].
    - rewrite decide_False; [reflexivity | congruence]. }
  split; [exact HD |]. split.
  - intros Hne. rewrite HD. now rewrite decide_False.
  - intros this' H. rewrite HD in H. inversion H; subst this'. clear H.
    destruct (decide (this !! ObjectName_of (version e) = Some a)) as [Hd | Hd].
    + split; [rewrite lookup_delete_eq; discriminate |].
      intros n Hn. now rewrite lookup_delete_ne.
    + split; [exact Hd | reflexivity].
Qed.

Lemma Entries_add_to_loop (keep : Entry -> bool) (h : Heap) (l : list (ObjectName * nat)) :
  forall (lst : list nat),
    exists new,
      fold_left (fun lst '(_, a) =>
                   match cells h !! a with
                   | Some e => if keep e then append lst a else lst
                   | None => lst
                   end) l lst
      = (lst ++ new)%list
      /\ (forall a, In a new <->
                    exists n e, In (n, a) l /\ cells h !! a = Some e /\ keep e = true)
      /\ (length new <= length l)%nat.
Proof.
  induction l as [| [n a] l IH]; intros lst.
  - exists []. rewrite app_nil_r. split; [reflexivity |]. split; [| simpl; lia].
    intros a. split; [intros [] | intros (n & e & [] & _)].
  - cbn [fold_left].
    destruct (cells h !! a) as [e |] eqn:Ha; [destruct (keep e) eqn:Hk |].
    + destruct (IH (append lst a)) as (new & Heq & Hin & Hlen).
      exists (a :: new). unfold append in Heq. rewrite <- app_assoc in Heq. simpl in Heq.
      split; [exact Heq |]. split; [| simpl; lia].
      intros b. simpl. rewrite Hin. split.
      * intros [<- | (n' & e' & Hl & Hc & Hk')].
        -- exists n, e. auto.
        -- exists n', e'. auto.
      * intros (n' & e' & [Heq' | Hl] & Hc & Hk').
        -- inversion Heq'; subst. now left.
        -- right. exists n', e'. auto.
    + destruct (IH lst) as (new & Heq & Hin & Hlen).
      exists new. split; [exact Heq |]. split; [| simpl; lia].
      intros b. rewrite Hin. split.
      * intros (n' & e' & Hl & Hc & Hk'). exists n', e'. simpl. auto.
      * intros (n' & e' & [Heq' | Hl] & Hc & Hk').
        -- inversion Heq'; subst. congruence.
        -- exists n', e'. auto.
    + destruct (IH lst) as (new & Heq & Hin & Hlen).
      exists new. split; [exact Heq |]. split; [| simpl; lia].
      intros b. rewrite Hin. split.
      * intros (n' & e' & Hl & Hc & Hk'). exists n', e'. simpl. auto.
      * intros (n' & e' & [Heq' | Hl] & Hc & Hk').
        -- inversion Heq'; subst. congruence.
        -- exists n', e'. auto.
Qed.

(** X9: [AddResponsibleTo] and [AddActiveZoneTo] keep the list they are
    given and append entries of the registry to it: exactly the entries
    that are responsible, or whose active zone is the given zone; never
    more entries than the registry has names. *)
Theorem Entries_add_to_selects (h : Heap) (this : gmap ObjectName nat) (lst : list nat)
        (zone : string) :
  (exists new,
      Entries_AddResponsibleTo h this lst = (lst ++ new)%list
      /\ (forall a, In a new <->
                    exists n e, this !! n = Some a /\ cells h !! a = Some e
                                /\ IsResponsible (version e) = true)
      /\ (length new <= size this)%nat)
  /\ (exists new,
         Entries_AddActiveZoneTo zone h this lst = (lst ++ new)%list
         /\ (forall a, In a new <->
                       exists n e, this !! n = Some a /\ cells h !! a = Some e
                                   /\ activezone e = zone)
         /\ (length new <= size this)%nat).
Proof.
  assert (Hl : forall n a, In (n, a) (map_to_list this) <-> this !! n = Some a).
  { intros n a. rewrite <- list_elem_of_In. apply elem_of_map_to_list. }
  assert (Hs : length (map_to_list this) = size this) by apply length_map_to_list.
  split.
  - unfold Entries_AddResponsibleTo, Entries_add_to.
    destruct (Entries_add_to_loop (fun e => IsResponsible (version e)) h
                (map_to_list this) lst) as (new & Heq & Hin & Hlen).
    exists new. split; [exact Heq |]. split; [| lia].
    intros a. rewrite Hin. split; intros (n & e & H1 & H2 & H3); exists n, e;
      (split; [now apply Hl | auto]).
  - unfold Entries_AddActiveZoneTo, Entries_add_to.
    destruct (Entries_add_to_loop (fun e => String.eqb (activezone e) zone) h
                (map_to_list this) lst) as (new & Heq & Hin & Hlen).
    exists new. split; [exact Heq |]. split; [| lia].
    intros a. rewrite Hin. split; intros (n & e & H1 & H2 & H3); exists n, e;
      (split; [now apply Hl | split; [exact H2 |]]).
    + now apply String.eqb_eq.
    + now apply String.eqb_eq.
Qed.

(** ** EntryList: Lock and Unlock *)

Lemma release_member (l : nat) (P : list nat) (h0 : list nat) :
  In l P ->
  exists P', release l (P ++ h0)%list = (P' ++ h0)%list /\ Permutation P (l :: P').
Proof.
  induction P as [| y P IH]; intros Hin; [destruct Hin |].
  simpl. destruct (Nat.eqb y l) eqn:E.
  - apply Nat.eqb_eq in E. subst y. exists P. split; reflexivity.
  - apply Nat.eqb_neq in E. destruct Hin as [Hy | Hin]; [congruence |].
    destruct (IH Hin) as (P' & Heq & Hp).
    exists (y :: P'). split; [simpl; now rewrite Heq |].
    rewrite Hp. apply perm_swap.
Qed.

Section UnlockProperties.

Variable cancelled : list LockEvent -> nat -> error.

Lemma Unlock_releases (this : list Entry) :
  forall (s : Locks) (P h0 : list nat),
    held s = (P ++ h0)%list ->
    Permutation P (map lock this) ->
    held (Unlock this s) = h0
    /\ history (Unlock this s) = (history s ++ map Released (map lock this))%list.
Proof.
  unfold Unlock.
  induction this as [| x this IH]; intros s P h0 Hs Hp.
  - apply Permutation_sym, Permutation_nil in Hp. subst P. simpl. now rewrite app_nil_r.
  - cbn [fold_left map].
    assert (Hin : In (lock x) P).
    { apply (Permutation_in (lock x) (Permutation_sym Hp)). now left. }
    destruct (release_member (lock x) P h0 Hin) as (P' & Hr & Hp').
    destruct (IH (TryLock_Unlock (lock x) s) P' h0) as [I1 I2].
    + simpl. now rewrite Hs.
    + apply Permutation_cons_inv with (a := lock x). now rewrite <- Hp'.
    + split; [exact I1 |]. rewrite I2. simpl. unfold append.
      now rewrite <- app_assoc.
Qed.

(** X10: after a [Lock] that returned nil, [Unlock] on the list, as [Lock]
    sorted it, releases every lock once, in the order of the list, and the
    caller holds what it held before the [Lock]. *)
Theorem Lock_Unlock (sort_Sort : EntryList -> EntryList) (this this' : EntryList)
        (s s' : Locks) :
  Lock sort_Sort cancelled this s = (this', s', None) ->
  held (Unlock this' s') = held s
  /\ history (Unlock this' s')
     = (history s ++ map Acquired (map lock this') ++ map Released (map lock this'))%list.
Proof.
  unfold Lock, Sort. intros H.
  pose proof (Lock_loop_spec cancelled (sort_Sort this) [] s (held s) (history s)) as L.
  simpl in L. rewrite app_nil_r in L. specialize (L eq_refl eq_refl).
  destruct (Lock_loop cancelled [] (sort_Sort this) s) as [s1 err].
  inversion H; subst this' s1 err. clear H.
  destruct L as [L1 L2].
  destruct (Unlock_releases (sort_Sort this) s' (rev (map lock (sort_Sort this))) (held s) L1)
    as [U1 U2].
  { symmetry. apply Permutation_rev. }
  split; [exact U1 |]. rewrite U2, L2. now rewrite <- app_assoc.
Qed.

End UnlockProperties.

(* ===================================================================== *)
(** ** Status updates *)
(* ===================================================================== *)

Lemma status_eta (b : DNSBaseStatus) :
  mkStatus (s_ObservedGeneration b) (s_State b) (s_Message b) (s_LastUptimeTime b)
           (s_ProviderType b) (s_Provider b) (s_Zone b) (s_TTL b) (s_Targets b) = b.
Proof. destruct b; reflexivity. Qed.

Lemma Int64Equal_eq (a b : option Z) : Int64Equal a b = true -> a = b.
Proof.
  destruct a, b; simpl; intros H; try discriminate; try reflexivity.
  apply Z.eqb_eq in H. now subst.
Qed.

Lemma UpdateStatus_f_data (st : state) (s msg : string) (b : DNSBaseStatus)
      (this : EntryVersion) :
  String.eqb s STATE_PENDING && negb (String.eqb (s_State b) "") = false ->
  let r := UpdateStatus_f st s msg b this in
  let b' := fst (fst (fst r)) in
  snd r = None
  /\ s_State b' = s
  /\ s_ObservedGeneration b' = o_Generation (object this)
  /\ (snd (fst r) = false -> b' = b)
  /\ (String.eqb s STATE_READY = true ->
      s_TTL b' = s_TTL (status this)
      /\ elems (s_Targets b') = map GetHostName (targets this)
      /\ (s_Provider (status this) <> None -> s_Provider b' = s_Provider (status this)))
  /\ (String.eqb s STATE_READY = false -> String.eqb s STATE_STALE = false ->
      elems (s_Targets b') = [])
  /\ (negb (String.eqb (s_State (status this)) STATE_STALE
            && String.eqb (s_State (status this)) s) = true ->
      s_Message b' = Some msg).
Proof.
  intros Hp. unfold UpdateStatus_f. rewrite Hp.
  rewrite targetList_spec.
  unfold AssureInt64PtrPtr, AssureStringPtrPtr, AssureStringValue, AssureStringPtrValue,
    AssureInt64Value, AcknowledgeTargets, list_string_eqb.
  repeat match goal with
         | |- context [if ?c then _ else _] => destruct c eqn:?
         | |- context [match ?x with Some _ => _ | None => _ end] => destruct x eqn:?
         end.
  all: cbn -[String.eqb STATE_READY STATE_STALE STATE_PENDING] in *.
  all: repeat split; intros; try discriminate; try congruence.
  all: bool_hyps;
    repeat match goal with
           | H : bool_decide _ = true |- _ => apply bool_decide_eq_true_1 in H
           | H : Int64Equal _ _ = true |- _ => apply Int64Equal_eq in H
           end;
    try congruence.
  all: try (destruct b; cbn in *; congruence).
  all: destruct b; unfold set_State, set_Message, set_ObservedGeneration, set_Provider,
    set_TTL, set_Targets in *; cbn in *; try congruence.
Qed.

(** X11: when the store accepts the write and the early return for a
    pending state does not apply, [UpdateStatus] reports no error and leaves
    the object with the requested state and the generation of the object as
    observed generation; the status of the entry version holds the state as
    well; a call that reports no modification leaves the object as it was;
    for the state Ready the object holds the host names of the targets of
    the entry, in their order, and the TTL of the entry. *)
Theorem UpdateStatus_persists (st : state) (this : EntryVersion) (s msg : string) :
  String.eqb s STATE_PENDING
  && negb (String.eqb (s_State (BaseStatus (object this))) "") = false ->
  store_error st = None ->
  let r := UpdateStatus st this s msg in
  let b' := BaseStatus (object (fst r)) in
  snd (snd r) = None
  /\ s_State b' = s
  /\ s_ObservedGeneration b' = o_Generation (object this)
  /\ s_State (status (fst r)) = s
  /\ (fst (snd r) = false -> object (fst r) = object this)
  /\ (s = STATE_READY ->
      elems (s_Targets b') = map GetHostName (targets this)
      /\ s_TTL b' = s_TTL (status this)).
Proof.
  intros Hp Hstore r b'.
  pose proof (UpdateStatus_f_data st s msg (BaseStatus (object this)) this Hp)
    as (He & Hs & Hg & Hid & Hready & _ & _).
  pose proof (UpdateStatus_f_version st s msg (BaseStatus (object this)) this) as Hv.
  rewrite Hp in Hv.
  subst r b'. unfold UpdateStatus, ModifyStatus.
  destruct (UpdateStatus_f st s msg (BaseStatus (object this)) this) as [[[b1 this1] m] e].
  simpl in *. subst e this1.
  assert (Hr : s = STATE_READY ->
               elems (s_Targets b1) = map GetHostName (targets this)
               /\ s_TTL b1 = s_TTL (status this)).
  { intros ->. destruct (Hready eq_refl) as (? & ? & _). split; assumption. }
  clear Hready.
  assert (Ho : forall f e, object (upd_status f e) = object e) by reflexivity.
  destruct m; simpl; rewrite ?Hstore; simpl.
  - repeat split; auto; try discriminate; try (apply Hr; assumption).
  - specialize (Hid eq_refl). subst b1.
    match goal with
    | |- context [if ?c then upd_status _ this else this] => destruct c
    end; rewrite ?Ho; repeat split; auto; apply Hr; assumption.
Qed.


Lemma AssureInt64PtrPtr_same (d : option Z) (m : bool) : AssureInt64PtrPtr d d m = (d, m).
Proof. unfold AssureInt64PtrPtr. now rewrite Int64Equal_refl. Qed.

Lemma AssureStringPtrPtr_same (d : option string) (m : bool) :
  AssureStringPtrPtr d d m = (d, m).
Proof. destruct d; simpl; [now rewrite String.eqb_refl | reflexivity]. Qed.

Lemma AssureStringValue_same (d : string) (m : bool) : AssureStringValue d d m = (d, m).
Proof. unfold AssureStringValue. now rewrite String.eqb_refl. Qed.

Lemma AssureStringPtrValue_same (v : string) (m : bool) :
  AssureStringPtrValue (Some v) v m = (Some v, m).
Proof. simpl. now rewrite String.eqb_refl. Qed.

Lemma AssureInt64Value_same (d : Z) (m : bool) : AssureInt64Value d d m = (d, m).
Proof. unfold AssureInt64Value. now rewrite Z.eqb_refl. Qed.

Lemma AcknowledgeTargets_same (t : slice string) (b : DNSBaseStatus) :
  elems (s_Targets b) = elems t -> AcknowledgeTargets t b = (b, false).
Proof.
  intros H. unfold AcknowledgeTargets, list_string_eqb.
  now rewrite bool_decide_eq_true_2.
Qed.

Lemma set_get_status (b : DNSBaseStatus) :
  set_TTL (s_TTL b) b = b /\ set_Provider (s_Provider b) b = b
  /\ set_ObservedGeneration (s_ObservedGeneration b) b = b
  /\ set_Message (s_Message b) b = b /\ set_State (s_State b) b = b.
Proof. destruct b; repeat split. Qed.

Lemma UpdateStatus_f_fixpoint (st : state) (s msg : string) (b : DNSBaseStatus)
      (this : EntryVersion) :
  s_State b = s ->
  s_ObservedGeneration b = o_Generation (object this) ->
  (String.eqb s STATE_READY = true ->
   s_TTL b = s_TTL (status this)
   /\ elems (s_Targets b) = map GetHostName (targets this)
   /\ (s_Provider (status this) <> None -> s_Provider b = s_Provider (status this))) ->
  (String.eqb s STATE_READY = false -> String.eqb s STATE_STALE = false ->
   elems (s_Targets b) = []) ->
  (negb (String.eqb (s_State (status this)) STATE_STALE
         && String.eqb (s_State (status this)) s) = true ->
   s_Message b = Some msg) ->
  fst (fst (fst (UpdateStatus_f st s msg b this))) = b
  /\ snd (fst (UpdateStatus_f st s msg b this)) = false.
Proof.
  intros Hs Hg Hready Hother Hmsg. unfold UpdateStatus_f.
  destruct (String.eqb s STATE_PENDING && negb (String.eqb (s_State b) "")); [auto |].
  destruct (set_get_status b) as (E1 & E2 & E3 & E4 & E5).
  assert (Htail :
    fst (fst (fst
      (let '(v, modified) := AssureInt64Value (s_ObservedGeneration b)
                                              (o_Generation (object this)) false in
       let b := set_ObservedGeneration v b in
       let '(b, this, modified) :=
         if negb (String.eqb (s_State (status this)) STATE_STALE
                  && String.eqb (s_State (status this)) s) then
           let '(v, modified) := AssureStringPtrValue (s_Message b) msg modified in
           (set_Message v b, upd_status (set_Message (Some msg)) this, modified)
         else (b, this, modified) in
       let '(v, modified) := AssureStringValue (s_State b) s modified in
       let b := set_State v b in
       let this := upd_status (set_State s) this in
       let b := if modified then SetLastUpdateTime st b else b in
       (b, this, modified, @None string)))) = b
    /\ snd (fst
      (let '(v, modified) := AssureInt64Value (s_ObservedGeneration b)
                                              (o_Generation (object this)) false in
       let b := set_ObservedGeneration v b in
       let '(b, this, modified) :=
         if negb (String.eqb (s_State (status this)) STATE_STALE
                  && String.eqb (s_State (status this)) s) then
           let '(v, modified) := AssureStringPtrValue (s_Message b) msg modified in
           (set_Message v b, upd_status (set_Message (Some msg)) this, modified)
         else (b, this, modified) in
       let '(v, modified) := AssureStringValue (s_State b) s modified in
       let b := set_State v b in
       let this := upd_status (set_State s) this in
       let b := if modified then SetLastUpdateTime st b else b in
       (b, this, modified, @None string))) = false).
  { rewrite <- Hg, AssureInt64Value_same. cbv beta iota zeta. rewrite E3.
    destruct (negb _) eqn:Ec.
    - rewrite (Hmsg eq_refl), AssureStringPtrValue_same. cbv beta iota zeta.
      rewrite <- (Hmsg eq_refl), E4, <- Hs, AssureStringValue_same.
      cbv beta iota zeta. rewrite E5. auto.
    - rewrite <- Hs, AssureStringValue_same. cbv beta iota zeta. rewrite E5. auto. }
  destruct (String.eqb s STATE_READY) eqn:Er.
  - destruct (Hready eq_refl) as (Ht & Htg & Hpr).
    rewrite <- Ht, AssureInt64PtrPtr_same, targetList_spec.
    cbv beta iota zeta. rewrite E1.
    rewrite AcknowledgeTargets_same by exact Htg.
    destruct (s_Provider (status this)) eqn:Ep.
    + rewrite Hpr by discriminate.
      rewrite AssureStringPtrPtr_same. rewrite <- Hpr by discriminate.
      rewrite E2. exact Htail.
    + exact Htail.
  - destruct (String.eqb s STATE_STALE) eqn:Es; [exact Htail |]. simpl negb. cbv iota.
    rewrite AcknowledgeTargets_same by (apply Hother; auto). exact Htail.
Qed.

Lemma upd_status_same (e : EntryVersion) (s : string) (m : option string) :
  (s_State (status e) = s -> upd_status (set_State s) e = e)
  /\ (s_Message (status e) = m -> upd_status (set_Message m) e = e).
Proof.
  destruct e as [o pn dn ts mp ws stat iv rs vl du ob].
  split; intros <-; destruct stat; reflexivity.
Qed.

(** X12: when the store accepts writes, repeating [UpdateStatus] with the
    same state and message on the entry version it returned changes nothing:
    the second call reports no modification and no error and returns the
    entry version it was given. *)
Theorem UpdateStatus_idempotent (st : state) (this : EntryVersion) (s msg : string) :
  store_error st = None ->
  UpdateStatus st (fst (UpdateStatus st this s msg)) s msg
  = (fst (UpdateStatus st this s msg), (false, None)).
Proof.
  intros Hstore.
  destruct (String.eqb s STATE_PENDING
            && negb (String.eqb (s_State (BaseStatus (object this))) "")) eqn:Hp.
  { unfold UpdateStatus, ModifyStatus, UpdateStatus_f. rewrite Hp. simpl. rewrite Hp.
    reflexivity. }
  pose proof (UpdateStatus_f_data st s msg (BaseStatus (object this)) this Hp)
    as (He & Hs & Hg & Hid & Hready & Hother & Hmsg).
  pose proof (UpdateStatus_f_version st s msg (BaseStatus (object this)) this) as Hv.
  rewrite Hp in Hv.
  set (this' := fst (UpdateStatus st this s msg)).
  assert (Hthis' : BaseStatus (object this')
                   = fst (fst (fst (UpdateStatus_f st s msg (BaseStatus (object this)) this)))
                   /\ o_Generation (object this') = o_Generation (object this)
                   /\ targets this' = targets this
                   /\ status this'
                      = set_State s
                          (if negb (String.eqb (s_State (status this)) STATE_STALE
                                    && String.eqb (s_State (status this)) s)
                           then set_Message (Some msg) (status this) else status this)).
  { subst this'. unfold UpdateStatus, ModifyStatus.
    destruct (UpdateStatus_f st s msg (BaseStatus (object this)) this) as [[[b1 this1] m] e].
    simpl in *. subst e this1.
    destruct m; simpl; rewrite ?Hstore; simpl.
    - repeat split;
        match goal with |- context [if ?c then _ else _] => destruct c end; reflexivity.
    - rewrite (Hid eq_refl). repeat split;
        match goal with |- context [if ?c then _ else _] => destruct c end; reflexivity. }
  destruct Hthis' as (Hb' & Hgen' & Htg' & Hst').
  rewrite <- Hb' in Hs, Hg, Hready, Hother, Hmsg.
  clearbody this'. clear Hid Hv He Hb' Hp.
  assert (Hstate' : s_State (status this') = s).
  { rewrite Hst'. reflexivity. }
  assert (Hfix : fst (fst (fst (UpdateStatus_f st s msg (BaseStatus (object this')) this')))
                 = BaseStatus (object this')
                 /\ snd (fst (UpdateStatus_f st s msg (BaseStatus (object this')) this'))
                    = false).
  { apply UpdateStatus_f_fixpoint.
    - exact Hs.
    - now rewrite Hgen'.
    - intros Er. destruct (Hready Er) as (H1 & H2 & H3).
      assert (Hsame : s_TTL (status this') = s_TTL (status this)
                      /\ s_Provider (status this') = s_Provider (status this)).
      { rewrite Hst'.
        match goal with |- context [if ?c then _ else _] => destruct c end; auto. }
      destruct Hsame as [-> ->]. rewrite Htg'. auto.
    - exact Hother.
    - rewrite Hstate'. intros Hc. apply Hmsg.
      destruct (String.eqb (s_State (status this)) s) eqn:E.
      + apply String.eqb_eq in E. rewrite E. rewrite String.eqb_refl in Hc. exact Hc.
      + now rewrite andb_false_r. }
  destruct Hfix as [Hfb Hfm].
  pose proof (UpdateStatus_f_version st s msg (BaseStatus (object this')) this') as Hv.
  assert (He : snd (UpdateStatus_f st s msg (BaseStatus (object this')) this') = None).
  { destruct (String.eqb s STATE_PENDING
              && negb (String.eqb (s_State (BaseStatus (object this'))) "")) eqn:Hp.
    - unfold UpdateStatus_f. rewrite Hp. reflexivity.
    - apply (UpdateStatus_f_data st s msg _ this' Hp). }
  assert (Hthis : snd (fst (fst (UpdateStatus_f st s msg (BaseStatus (object this')) this')))
                  = this').
  { rewrite Hv.
    destruct (String.eqb s STATE_PENDING && _); [reflexivity |].
    rewrite Hstate', String.eqb_refl, andb_true_r.
    destruct (String.eqb s STATE_STALE) eqn:Est; simpl negb; cbv iota.
    - apply (proj1 (upd_status_same this' s None) Hstate').
    - assert (Hm : s_Message (status this') = Some msg).
      { rewrite Hst'.
        assert (Hc : negb (String.eqb (s_State (status this)) STATE_STALE
                           && String.eqb (s_State (status this)) s) = true).
        { destruct (String.eqb (s_State (status this)) STATE_STALE) eqn:E1; [| reflexivity].
          destruct (String.eqb (s_State (status this)) s) eqn:E2; [| reflexivity].
          apply String.eqb_eq in E1, E2. rewrite <- E2, E1 in Est. discriminate. }
        rewrite Hc. reflexivity. }
      rewrite (proj2 (upd_status_same this' s (Some msg)) Hm).
      apply (proj1 (upd_status_same this' s None) Hstate'). }
  unfold UpdateStatus, ModifyStatus.
  clear Hv.
  destruct (UpdateStatus_f st s msg (BaseStatus (object this')) this') as [[[b2 this2] m2] e2].
  simpl in Hfm, He, Hthis. subst m2 e2 this2. reflexivity.
Qed.

Lemma status_ext (a b : DNSBaseStatus) :
  s_ObservedGeneration a = s_ObservedGeneration b -> s_State a = s_State b ->
  s_Message a = s_Message b -> s_LastUptimeTime a = s_LastUptimeTime b ->
  s_ProviderType a = s_ProviderType b -> s_Provider a = s_Provider b ->
  s_Zone a = s_Zone b -> s_TTL a = s_TTL b -> s_Targets a = s_Targets b -> a = b.
Proof. destruct a, b; simpl; intros; subst; reflexivity. Qed.

Lemma AssureStringValue_spec (d v : string) (m : bool) :
  fst (AssureStringValue d v m) = v
  /\ (snd (AssureStringValue d v m) = false -> m = false /\ d = v).
Proof.
  unfold AssureStringValue. destruct (String.eqb d v) eqn:E; simpl.
  - apply String.eqb_eq in E. auto.
  - split; [reflexivity | discriminate].
Qed.

Lemma AssureStringPtrValue_spec (d : option string) (v : string) (m : bool) :
  fst (AssureStringPtrValue d v m) = Some v
  /\ (snd (AssureStringPtrValue d v m) = false -> m = false /\ d = Some v).
Proof.
  unfold AssureStringPtrValue. destruct d as [x |]; simpl.
  - destruct (String.eqb x v) eqn:E; simpl.
    + apply String.eqb_eq in E. subst. auto.
    + split; [reflexivity | discriminate].
  - split; [reflexivity | discriminate].
Qed.

Lemma AssureStringPtrPtr_spec (d p : option string) (m : bool) :
  fst (AssureStringPtrPtr d p m) = p
  /\ (snd (AssureStringPtrPtr d p m) = false -> m = false /\ d = p).
Proof.
  unfold AssureStringPtrPtr. destruct d as [x |], p as [y |]; simpl;
    try (split; [reflexivity | discriminate]); auto.
  destruct (String.eqb x y) eqn:E; simpl.
  - apply String.eqb_eq in E. subst. auto.
  - split; [reflexivity | discriminate].
Qed.

Lemma AssureInt64Value_spec (d v : Z) (m : bool) :
  fst (AssureInt64Value d v m) = v
  /\ (snd (AssureInt64Value d v m) = false -> m = false /\ d = v).
Proof.
  unfold AssureInt64Value. destruct (d =? v) eqn:E; simpl.
  - apply Z.eqb_eq in E. auto.
  - split; [reflexivity | discriminate].
Qed.

Lemma AssureInt64PtrPtr_spec (d p : option Z) (m : bool) :
  fst (AssureInt64PtrPtr d p m) = p
  /\ (snd (AssureInt64PtrPtr d p m) = false -> m = false /\ d = p).
Proof.
  unfold AssureInt64PtrPtr. destruct (Int64Equal d p) eqn:E; simpl.
  - apply Int64Equal_eq in E. auto.
  - split; [reflexivity | discriminate].
Qed.

Lemma AcknowledgeTargets_spec (t : slice string) (b : DNSBaseStatus) :
  elems (s_Targets (fst (AcknowledgeTargets t b))) = elems t
  /\ (fst (AcknowledgeTargets t b) = b \/ fst (AcknowledgeTargets t b) = set_Targets t b)
  /\ (snd (AcknowledgeTargets t b) = false -> fst (AcknowledgeTargets t b) = b).
Proof.
  unfold AcknowledgeTargets, list_string_eqb.
  destruct (bool_decide _) eqn:E; simpl.
  - apply bool_decide_eq_true_1 in E. auto.
  - repeat split; auto. discriminate.
Qed.

Lemma updateStatus_f_data (s msg : string) (b : DNSBaseStatus) (this : EntryVersion) :
  let r := updateStatus_f s msg b this in
  snd r = None
  /\ snd (fst (fst r)) = this
  /\ s_ObservedGeneration b <= s_ObservedGeneration (fst (fst (fst r)))
  /\ (s <> "" -> s_State (fst (fst (fst r))) = s
               /\ o_Generation (object this) <= s_ObservedGeneration (fst (fst (fst r))))
  /\ s_Message (fst (fst (fst r))) = Some msg
  /\ (snd (fst r) = false -> fst (fst (fst r)) = b).
Proof.
  unfold updateStatus_f. cbv zeta.
  name_assure_with AssureStringValue_spec AssureStringPtrValue_spec AssureStringPtrPtr_spec
    AssureInt64Value_spec AssureInt64PtrPtr_spec AcknowledgeTargets_spec.
  destruct (negb (String.eqb s "") && _) eqn:Eg;
    destruct (String.eqb (StringValue (s_Provider (status this))) "") eqn:Ep;
    name_assure_with AssureStringValue_spec AssureStringPtrValue_spec AssureStringPtrPtr_spec
    AssureInt64Value_spec AssureInt64PtrPtr_spec AcknowledgeTargets_spec; cbn [fst snd].
  all: repeat match goal with
             | H : _ /\ _ |- _ => destruct H
             | H : _ \/ _ |- _ => destruct H
             end; subst.
  all: cbn [s_ObservedGeneration s_State s_Message set_ObservedGeneration set_TTL
            set_Provider set_Zone set_Message set_State set_ProviderType set_Targets] in *.
  all: assert (Hgen : negb (String.eqb s "")
                      && (s_ObservedGeneration b <? o_Generation (object this)) = true
                      -> s_ObservedGeneration b <= o_Generation (object this))
         by (intros Hx; apply andb_true_iff in Hx; destruct Hx as [_ Hx];
             apply Z.ltb_lt in Hx; lia).
  all: assert (Hgen' : s <> "" ->
                       negb (String.eqb s "")
                       && (s_ObservedGeneration b <? o_Generation (object this)) = false
                       -> o_Generation (object this) <= s_ObservedGeneration b)
         by (intros Hne Hx; apply String.eqb_neq in Hne; rewrite Hne in Hx; simpl in Hx;
             apply Z.ltb_ge in Hx; exact Hx).
  all: repeat split; auto; try lia.
  all: intros Hm; try (apply orb_false_iff in Hm; destruct Hm as [Hm Hm']);
    repeat match goal with
           | H : ?x = false -> _, H' : ?x = false |- _ => specialize (H H')
           | H : _ /\ _ |- _ => destruct H
           end.
  all: clear Hgen Hgen' Eg Ep.
  all: repeat match goal with
              | H : set_Targets _ _ = _ |- _ =>
                  apply (f_equal s_Targets) in H
              end.
  all: apply status_ext;
    cbn [s_ObservedGeneration s_State s_Message s_ProviderType s_Provider s_Zone s_TTL
         s_Targets s_LastUptimeTime set_ObservedGeneration set_TTL set_Provider set_Zone
         set_Message set_State set_ProviderType set_Targets] in *;
    congruence.
Qed.

Lemma updateStatus_result (st : state) (this : EntryVersion) (s msg : string) :
  let r := updateStatus st this s msg in
  let st' := fst (fst r) in
  let this' := snd (fst r) in
  st' = ObjectEvent (object this) EventTypeNormal "reconcile" msg st
  /\ status this' = status this
  /\ s_ObservedGeneration (BaseStatus (object this))
     <= s_ObservedGeneration (BaseStatus (object this'))
  /\ (snd r = None \/ (snd r = store_error st /\ object this' = object this))
  /\ (snd r = None ->
      s_Message (BaseStatus (object this')) = Some msg
      /\ (s <> "" -> s_State (BaseStatus (object this')) = s
                   /\ o_Generation (object this)
                      <= s_ObservedGeneration (BaseStatus (object this')))).
Proof.
  pose proof (updateStatus_f_data s msg (BaseStatus (object this)) this)
    as (He & Hthis & Hgen & Hst & Hmsg & Hid).
  unfold updateStatus, ModifyStatus.
  destruct (updateStatus_f s msg (BaseStatus (object this)) this) as [[[b1 this1] m] e].
  cbn [fst snd] in *. subst e this1.
  destruct m; cbn [negb].
  - destruct (store_error st) as [e |] eqn:Hstore; cbn [fst snd].
    + refine (conj _ (conj _ (conj _ (conj _ _)))); auto; try lia; try discriminate.
    + refine (conj _ (conj _ (conj _ (conj _ _)))); auto.
  - rewrite (Hid eq_refl) in *. cbn [fst snd].
    refine (conj _ (conj _ (conj _ (conj _ _)))); auto; try lia.
Qed.

Lemma updateStatus_name (st : state) (this : EntryVersion) (s msg : string) :
  o_ObjectName (object (snd (fst (updateStatus st this s msg))))
  = o_ObjectName (object this).
Proof.
  pose proof (updateStatus_f_data s msg (BaseStatus (object this)) this)
    as (_ & Hthis & _).
  unfold updateStatus, ModifyStatus.
  destruct (updateStatus_f s msg (BaseStatus (object this)) this) as [[[b1 this1] m] e].
  cbn [fst snd] in *. subst this1.
  destruct m; cbn [negb]; [| reflexivity].
  destruct e; [reflexivity |]. destruct (store_error st); reflexivity.
Qed.

Lemma ObjectEvent_finalizer_error (o : DNSObject) (ty reason msg : string) (s : state) :
  finalizer_error (ObjectEvent o ty reason msg s) = finalizer_error s.
Proof. reflexivity. Qed.

Lemma ObjectEvent_store_error (o : DNSObject) (ty reason msg : string) (s : state) :
  store_error (ObjectEvent o ty reason msg s) = store_error s.
Proof. reflexivity. Qed.

Lemma Setup_type_responsibility_returns (st : state) (this : EntryVersion) (p : EntryPremise)
      (err : error) (config : Config) (st' : state) (this' : EntryVersion)
      (r : ReconcileStatus) :
  Setup_type_responsibility st this p err config = Return (st', this', r) ->
  valid this' = false
  /\ (r = RescheduleAfter (RescheduleDelay config)
      \/ (exists e, r = Delay (Some e) /\ store_error st = Some e)
      \/ r = RepeatOnError (finalizer_error st)).
Proof.
  unfold Setup_type_responsibility. intros H.
  repeat (first [ progress
                    (repeat match type of H with
                            | context [updateStatus ?a ?b ?c ?d] =>
                                let Hu := fresh "Hu" in
                                let Hr := fresh "Hr" in
                                pose proof (updateStatus_version a b c d) as Hu;
                                pose proof (updateStatus_result a b c d) as Hr;
                                destruct (updateStatus a b c d) as [[? ?] ?];
                                cbn [fst snd] in Hr
                            end)
                | break_match_hyp H; try discriminate ]);
    inversion H; subst; clear H;
    unfold same_flags in *;
    repeat match goal with
           | Hu : _ /\ _ |- _ => destruct Hu
           end;
    simpl in *.
  all: split; [congruence |].
  all: try (left; reflexivity).
  all: subst.
  all: repeat match goal with
              | H : RemoveFinalizer _ _ = _ |- _ => unfold RemoveFinalizer in H
              end.
  all: repeat match goal with
              | H : context [finalizer_error (ObjectEvent _ _ _ _ _)] |- _ =>
                  rewrite ObjectEvent_finalizer_error in H
              end.
  all: repeat match goal with
              | H : match finalizer_error ?s with _ => _ end = _ |- _ =>
                  destruct (finalizer_error s) eqn:?; inversion H; subst; clear H
              end.
  all: try (right; right; reflexivity).
  all: rewrite ?ObjectEvent_store_error in *.
  all: right; left; eexists; split; [reflexivity |].
  all: repeat match goal with
              | H : _ \/ _ |- _ => destruct H as [H | [H _]]; try discriminate
              end; congruence.
Qed.

(** X13: without a zone or without a provider type in the premise, [Setup]
    always returns after its first part, whatever the entry and the fuel:
    the entry version is neither responsible nor valid, and the result is a
    reschedule after the reschedule delay, a delay with the error of the
    store, or what removing the finalizer gave. *)
Theorem Setup_without_zone_or_type (fuel : nat) (st : state) (this : EntryVersion)
        (p : EntryPremise) (err : error) (config : Config) :
  zoneid p = "" \/ ptype p = "" ->
  exists st' this' r,
    Setup fuel st this p err config = Val (st', this', r)
    /\ responsible this' = false
    /\ valid this' = false
    /\ (r = RescheduleAfter (RescheduleDelay config)
        \/ (exists e, r = Delay (Some e) /\ store_error st = Some e)
        \/ r = RepeatOnError (finalizer_error st)).
Proof.
  intros Hp. unfold Setup.
  destruct (Setup_type_responsibility st this p err config) as [[[st' this'] r] | [st1 this1]]
    eqn:H1.
  - exists st', this', r. split; [reflexivity |].
    split; [exact (Setup_type_responsibility_return _ _ _ _ _ _ _ _ H1) |].
    exact (Setup_type_responsibility_returns _ _ _ _ _ _ _ _ H1).
  - exfalso.
    destruct (Setup_type_responsibility_continue _ _ _ _ _ _ _ H1) as (Hz & Ht & _).
    destruct Hp; contradiction.
Qed.

(** X14: when the first part of [Setup] goes on and the owner of the entry
    is unknown, [Setup] fails with the error of the owner validation: the
    entry version is responsible, not valid and its state is Stale, so its
    records are kept; the controller state is the one the first part left. *)
Theorem Setup_unknown_owner (fuel : nat) (st st1 : state) (this this1 : EntryVersion)
        (p : EntryPremise) (err : error) (config : Config) (verr : string) :
  Setup_type_responsibility st this p err config = Continue (st1, this1) ->
  validateOwner st1 (Setup_responsible this1 p) = Some verr ->
  exists this',
    Setup fuel st this p err config = Val (st1, this', Failed verr)
    /\ s_State (status this') = STATE_STALE
    /\ responsible this' = true
    /\ valid this' = false
    /\ KeepRecords this' = true.
Proof.
  intros H1 Hown. unfold Setup, Setup_validate. rewrite H1, Hown.
  destruct (Setup_type_responsibility_continue _ _ _ _ _ _ _ H1) as (_ & _ & _ & _ & Hv).
  destruct (Setup_responsible_fields this1 p) as (R1 & _ & _ & R4).
  pose proof (UpdateStatus_state st1 (Setup_responsible this1 p) STATE_STALE verr eq_refl)
    as [Hs Hf].
  destruct (UpdateStatus st1 (Setup_responsible this1 p) STATE_STALE verr) as [this' [m e]].
  exists this'. cbn [fst] in *. unfold same_flags in Hf.
  assert (Hk : KeepRecords this' = true).
  { unfold KeepRecords. rewrite Hs. apply orb_true_r. }
  repeat split; try tauto; intuition congruence.
Qed.

Lemma validate_completion_error (fuel : nat) (st st2 : state) (entry : EntryVersion)
      (p : EntryPremise) (e : string) :
  ValidateDomainName st (o_DNSName (object entry)) = None ->
  ValidateSpecial st (object entry) = None ->
  complete fuel st (object entry) (object entry) "" = Val (st2, inr e) ->
  validate fuel st entry p = Val (st2, (None, [], [], Some e)).
Proof.
  intros Hd Hs Hc. unfold validate. rewrite Hd, Hs, Hc. reflexivity.
Qed.

(** X15: when the first part of [Setup] goes on, the owner is known, and the
    completion of the specification by its reference fails, [validate] gives
    no effective specification. With a provider in the premise [Setup] then
    calls a method of the missing specification and panics; without one it
    fails with the error of the completion and the state Invalid, and the
    records of the entry are not kept. *)
Theorem Setup_failed_completion (fuel : nat) (st st1 st2 : state)
        (this this1 : EntryVersion) (p : EntryPremise) (err : error) (config : Config)
        (e : string) :
  Setup_type_responsibility st this p err config = Continue (st1, this1) ->
  validateOwner st1 (Setup_responsible this1 p) = None ->
  ValidateDomainName st1 (o_DNSName (object this)) = None ->
  ValidateSpecial st1 (object this) = None ->
  complete fuel st1 (object this) (object this) "" = Val (st2, inr e) ->
  (provider p <> None ->
   Setup fuel st this p err config
   = Panic "invalid memory address or nil pointer dereference")
  /\ (provider p = None ->
      exists this',
        Setup fuel st this p err config = Val (st2, this', Failed e)
        /\ s_State (status this') = STATE_INVALID
        /\ responsible this' = true
        /\ valid this' = false
        /\ KeepRecords this' = false).
Proof.
  intros H1 Hown Hd Hs Hc.
  destruct (Setup_type_responsibility_continue _ _ _ _ _ _ _ H1) as (_ & _ & _ & Hobj & Hv).
  destruct (Setup_responsible_fields this1 p) as (R1 & R2 & _ & R4).
  assert (Hval : validate fuel st1 (Setup_responsible this1 p) p
                 = Val (st2, (None, [], [], Some e))).
  { apply validate_completion_error; rewrite R2, Hobj; assumption. }
  unfold Setup, Setup_validate. rewrite H1, Hown, Hval. cbn [rbind].
  split.
  - intros Hp. destruct (provider p); [reflexivity | contradiction].
  - intros Hp. rewrite Hp. cbn [rbind].
    pose proof (UpdateStatus_state st2 (Setup_responsible this1 p) STATE_INVALID e eq_refl)
      as [Hst Hf].
    destruct (UpdateStatus st2 (Setup_responsible this1 p) STATE_INVALID e) as [this' [m e']].
    exists this'. cbn [fst] in *. unfold same_flags in Hf.
    assert (Hvalid : valid this' = false) by intuition congruence.
    assert (Hk : KeepRecords this' = false).
    { unfold KeepRecords, IsValid. rewrite Hst, Hvalid. reflexivity. }
    repeat split; try tauto; intuition congruence.
Qed.




(** X17: an entry without zone and without provider type that is older
    than the reschedule delay is marked as erroneous: when the store accepts
    the write, the object gets the state Error and the message that no
    responsible provider was found, followed by the error of the premise if
    there is one. This text is the format of the log message, which has no
    operands: the object and the one reconcile event that is recorded hold
    what [fmt.Sprintf] makes of it, so a per cent sign in the error of the
    premise is read as a directive. The assignment in the status of the
    entry version is cleared, and the finalizer is removed unless that
    fails. *)
Theorem Setup_no_responsible_provider (fuel : nat) (st : state) (this : EntryVersion)
        (p : EntryPremise) (err : error) (config : Config) :
  zoneid p = "" ->
  IsEmptyString (s_ProviderType (status this)) = true ->
  IsEmptyString (s_ProviderType (BaseStatus (object this))) = true \/ ptype p <> "" ->
  o_CreationTimestamp (object this) + RescheduleDelay config <= Now st ->
  store_error st = None ->
  let msg := Sprintf st match err with
                        | Some e => "No responsible provider found" ++ ": " ++ e
                        | None => "No responsible provider found"
                        end [] in
  exists st' this',
    Setup fuel st this p err config = Val (st', this', RepeatOnError (finalizer_error st))
    /\ s_State (BaseStatus (object this')) = STATE_ERROR
    /\ s_Message (BaseStatus (object this')) = Some msg
    /\ s_Provider (status this') = None
    /\ s_ProviderType (status this') = None
    /\ s_Zone (status this') = None
    /\ events st'
       = (events st
          ++ [mkEvent (o_ObjectName (object this)) EventTypeNormal "reconcile" msg])%list
    /\ (finalizer_error st = None -> o_ObjectName (object this) ∉ finalizers st').
Proof.
  intros Hz Hs Hno Hnow Hstore msg. unfold Setup, Setup_type_responsibility.
  assert (Hadopt : negb (IsEmptyString
                           (s_ProviderType
                              (BaseStatus (object (set_responsible false
                                                     (set_valid false this))))))
                   && String.eqb (ptype p) "" = false).
  { simpl. destruct Hno as [Hno | Hno].
    - rewrite Hno. reflexivity.
    - apply String.eqb_neq in Hno. rewrite Hno. apply andb_false_r. }
  rewrite Hadopt, Hz. simpl String.eqb. cbn [status set_responsible set_valid].
  rewrite Hs. cbn [orb].
  assert (Hlate : (Now st <? o_CreationTimestamp (object this) + RescheduleDelay config)
                  = false) by (apply Z.ltb_ge; exact Hnow).
  cbn [object set_responsible set_valid]. rewrite Hlate.
  fold msg.
  set (this0 := clear_assignment (set_responsible false (set_valid false this))).
  pose proof (updateStatus_result st this0 STATE_ERROR msg) as (Hst & Hstat & _ & He & Hok).
  pose proof (updateStatus_name st this0 STATE_ERROR msg) as Hname.
  destruct (updateStatus st this0 STATE_ERROR msg) as [[st1 this1] e]. cbn [fst snd] in *.
  assert (e = None) as -> by (destruct He as [He | [He _]]; congruence).
  destruct (Hok eq_refl) as [Hmsg Hstate]. destruct (Hstate ltac:(discriminate)) as [Hstate' _].
  assert (Hpt : s_ProviderType (status this1) = None) by (rewrite Hstat; reflexivity).
  rewrite Hpt. cbn [andb negb IsEmptyString].
  unfold RemoveFinalizer. subst st1. rewrite ObjectEvent_finalizer_error.
  destruct (finalizer_error st) eqn:Hf.
  - eexists _, this1. split; [reflexivity |].
    repeat split; auto; try (rewrite Hstat; reflexivity). discriminate.
  - eexists _, this1. split; [reflexivity |].
    repeat split; auto; try (rewrite Hstat; reflexivity).
    intros _. cbn [finalizers set_finalizers]. rewrite Hname. clear. set_solver.
Qed.

(** X18: the loop of [validate] over the targets stops at the first target
    that is blank after trimming: when the targets before it are not blank
    and are host names or IP addresses, the error names the position of the
    blank target, counted from 1, and the targets after it are not looked
    at. *)
Theorem validate_targets_blank (st : state) (entry : EntryVersion) (pre post : list string)
        (t : string) :
  Forall (fun x => TrimSpace x <> "" /\ ParseIP st x <> IPNeither) pre ->
  TrimSpace t = "" ->
  snd (validate_targets st entry 0 (pre ++ t :: post) [] [])
  = Some ("target " ++ pretty (Z.of_nat (length pre) + 1) ++ " must not be empty").
Proof.
  intros Hpre Ht.
  assert (Hgen : forall i targets warnings,
             snd (validate_targets st entry i (pre ++ t :: post) targets warnings)
             = Some ("target " ++ pretty (i + Z.of_nat (length pre) + 1)
                     ++ " must not be empty")).
  { induction Hpre as [| x pre [Hx Hip] _ IH]; intros i targets warnings.
    - cbn [app validate_targets length]. rewrite Ht. cbn [String.eqb snd].
      replace (i + Z.of_nat 0 + 1) with (i + 1) by lia. reflexivity.
    - cbn [app validate_targets length].
      apply String.eqb_neq in Hx. rewrite Hx.
      unfold NewHostTargetFromEntryVersion.
      destruct (ParseIP st x); try contradiction;
        match goal with |- context [if ?c then _ else _] => destruct c end;
        rewrite IH;
        replace (i + 1 + Z.of_nat (length pre) + 1)
          with (i + Z.of_nat (S (length pre)) + 1) by lia; reflexivity. }
  rewrite Hgen. reflexivity.
Qed.

Lemma UpdateState_f_data (st : state) (s msg : string) (b : DNSBaseStatus)
      (this : EntryVersion) :
  let r := UpdateState_f st s msg b this in
  let b' := fst (fst (fst r)) in
  snd r = None
  /\ snd (fst (fst r)) = upd_status (set_State s) (upd_status (set_Message (Some msg)) this)
  /\ s_State b' = s
  /\ s_Message b' = Some msg
  /\ (snd (fst r) = false -> b' = b)
  /\ (snd (fst r) = true -> s_LastUptimeTime b' = Some (Now st))
  /\ set_LastUptimeTime (s_LastUptimeTime b) (set_Message (s_Message b) (set_State (s_State b) b'))
     = b.
Proof.
  unfold UpdateState_f. cbv zeta.
  name_assure_with AssureStringValue_spec AssureStringPtrValue_spec AssureStringPtrPtr_spec
    AssureInt64Value_spec AssureInt64PtrPtr_spec AcknowledgeTargets_spec.
  repeat match goal with
         | H : _ /\ _ |- _ => destruct H
         end; subst.
  destruct b1; cbn [fst snd].
  - refine (conj _ (conj _ (conj _ (conj _ (conj _ (conj _ _)))))); auto; try discriminate.
    destruct b; reflexivity.
  - refine (conj _ (conj _ (conj _ (conj _ (conj _ (conj _ _)))))); auto; try discriminate.
    + intros _.
      repeat match goal with
             | H : false = false -> _ |- _ => specialize (H eq_refl)
             | H : ?x = false -> _, H' : ?x = false |- _ => specialize (H H')
             | H : _ /\ _ |- _ => destruct H
             end.
      apply status_ext;
        cbn [s_ObservedGeneration s_State s_Message s_ProviderType s_Provider s_Zone s_TTL
             s_Targets s_LastUptimeTime set_Message set_State] in *; congruence.
    + destruct b; reflexivity.
Qed.

(** X19: [UpdateState] always puts the state and the message into the
    status of the entry version. In the object it touches nothing but the
    state, the message and the time of the last update: the observed
    generation, the TTL, the targets, the provider, its type and the zone
    stay. When the store accepts the write the object holds the state and
    the message, and the time of the last update is the current time if
    something was modified; a call that reports no modification leaves the
    object as it was. *)
Theorem UpdateState_effects (st : state) (this : EntryVersion) (s msg : string) :
  let r := UpdateState st this s msg in
  let b := BaseStatus (object this) in
  let b' := BaseStatus (object (fst r)) in
  status (fst r) = set_State s (set_Message (Some msg) (status this))
  /\ (s_ObservedGeneration b' = s_ObservedGeneration b
      /\ s_TTL b' = s_TTL b /\ s_Targets b' = s_Targets b
      /\ s_Provider b' = s_Provider b /\ s_ProviderType b' = s_ProviderType b
      /\ s_Zone b' = s_Zone b)
  /\ (store_error st = None ->
      snd (snd r) = None /\ s_State b' = s /\ s_Message b' = Some msg
      /\ (fst (snd r) = true -> s_LastUptimeTime b' = Some (Now st)))
  /\ (fst (snd r) = false -> object (fst r) = object this).
Proof.
  pose proof (UpdateState_f_data st s msg (BaseStatus (object this)) this)
    as (He & Hthis & Hs & Hm & Hid & Htime & Hrest).
  unfold UpdateState, ModifyStatus.
  destruct (UpdateState_f st s msg (BaseStatus (object this)) this) as [[[b1 this1] m] e].
  cbn [fst snd] in *. subst e this1.
  assert (Hfields : s_ObservedGeneration b1 = s_ObservedGeneration (BaseStatus (object this))
                    /\ s_TTL b1 = s_TTL (BaseStatus (object this))
                    /\ s_Targets b1 = s_Targets (BaseStatus (object this))
                    /\ s_Provider b1 = s_Provider (BaseStatus (object this))
                    /\ s_ProviderType b1 = s_ProviderType (BaseStatus (object this))
                    /\ s_Zone b1 = s_Zone (BaseStatus (object this))).
  { repeat split;
      [ exact (f_equal s_ObservedGeneration Hrest) | exact (f_equal s_TTL Hrest)
      | exact (f_equal s_Targets Hrest) | exact (f_equal s_Provider Hrest)
      | exact (f_equal s_ProviderType Hrest) | exact (f_equal s_Zone Hrest) ]. }
  destruct m; cbn [negb].
  - destruct (store_error st) as [e |] eqn:Hstore; cbn [fst snd].
    + repeat split; try discriminate.
    + repeat split; try apply Hfields; auto; try discriminate.
  - rewrite (Hid eq_refl) in *. cbn [fst snd].
    repeat split; auto; discriminate.
Qed.

(** X20: [updateStatus] records exactly one event, of reason reconcile and
    with the message, whatever the store answers, and changes nothing else
    of the controller state; it leaves the status of the entry version in
    memory as it is and never lowers the observed generation of the object.
    Its error is none or the error of the store, and then the object is
    unchanged; without error the object holds the message and, for a state
    that is not empty, the state and an observed generation that is at
    least the generation of the object. *)
Theorem updateStatus_effects (st : state) (this : EntryVersion) (s msg : string) :
  let r := updateStatus st this s msg in
  let st' := fst (fst r) in
  let this' := snd (fst r) in
  events st'
  = (events st ++ [mkEvent (o_ObjectName (object this)) EventTypeNormal "reconcile" msg])%list
  /\ set_events (events st) st' = st
  /\ status this' = status this
  /\ s_ObservedGeneration (BaseStatus (object this))
     <= s_ObservedGeneration (BaseStatus (object this'))
  /\ (snd r = None \/ (snd r = store_error st /\ object this' = object this))
  /\ (snd r = None ->
      s_Message (BaseStatus (object this')) = Some msg
      /\ (s <> "" -> s_State (BaseStatus (object this')) = s
                   /\ o_Generation (object this)
                      <= s_ObservedGeneration (BaseStatus (object this')))).
Proof.
  pose proof (updateStatus_result st this s msg) as (Hst & Hrest).
  cbv zeta. rewrite Hst.
  split; [reflexivity |].
  split; [destruct st; reflexivity |].
  exact Hrest.
Qed.

(** X21: a version that differs from the current one in the state of its
    status only requires an update exactly when the new state is another
    state than the current one and is not Ready: becoming ready alone is no
    reason for an update, and no refresh is asked for. *)
Theorem RequiresUpdateFor_state_change (this : EntryVersion) (s : string) :
  RequiresUpdateFor this (upd_status (set_State s) this)
  = (if String.eqb (State this) s || String.eqb s STATE_READY
     then [] else ["state changed"], false).
Proof.
  unfold RequiresUpdateFor, State, ZoneId, OwnerId.
  cbn [upd_status set_status status dnsname valid object targets obsolete set_State
       s_TTL s_Zone s_State].
  rewrite !String.eqb_refl, Int64Equal_refl, !Bool.eqb_reflx, DifferFrom_same, Z.ltb_irrefl.
  cbn [negb].
  destruct (String.eqb (s_State (status this)) s); cbn [negb orb]; [reflexivity |].
  destruct (String.eqb s STATE_READY); reflexivity.
Qed.

(* ===================================================================== *)
(** ** Instances of the further properties *)
(* ===================================================================== *)

Import MoreExamples.

Lemma normalizeTargets_resolved_witness :
  exists R,
    normalizeTargets resolver (object new_entry) cname_targets
    = (set_events (events resolver
                   ++ lookup_failures resolver (object new_entry) cname_targets)%list
                  resolver,
       (R, true, true))
    /\ List.NoDup (map GetHostName R).
Proof.
  destruct (normalizeTargets_resolved resolver (object new_entry) cname_targets)
    as (R & H & Hnd & _).
  - reflexivity.
  - simpl. lia.
  - exists R. split; assumption.
Defined.

Lemma Update_heap_invariants_witness :
  exists st1 h1 a1,
    Update (controller empty_cache) heap 0 moved_entry = Some (st1, h1, a1)
    /\ heap_wf h1
    /\ locks heap ⊆ locks h1.
Proof.
  assert (H : exists r, Update (controller empty_cache) heap 0 moved_entry = Some r).
  { eexists. vm_compute. reflexivity. }
  destruct H as [[[st1 h1] a1] H].
  destruct (Update_heap_invariants _ _ _ _ _ _ _ heap_wf_example H) as (Hwf & Hl & _).
  exists st1, h1, a1. auto.
Defined.

Lemma Update_twice_witness :
  exists st1 h1 a1,
    Update (controller empty_cache) heap 0 changed_entry = Some (st1, h1, a1)
    /\ Update st1 h1 a1 changed_entry = Some (st1, h1, a1).
Proof.
  assert (H : exists r, Update (controller empty_cache) heap 0 changed_entry = Some r).
  { eexists. vm_compute. reflexivity. }
  destruct H as [[[st1 h1] a1] H].
  exists st1, h1, a1. split; [exact H |].
  exact (Update_twice _ _ _ _ _ _ _ heap_wf_example H).
Defined.

Lemma Entries_AddEntry_Delete_witness :
  exists this',
    Entries_AddEntry heap ∅ 0 = Some (this', None)
    /\ this' !! name = Some 0%nat
    /\ Entries_Delete heap this' 0 = Some ∅.
Proof.
  destruct (Entries_AddEntry_Delete heap ∅ 0
              (mkEntry 7 "default/www" 900 false false "zone-1" ready_entry) eq_refl)
    as (this' & Ha & Hl & _ & _ & Hd).
  exists this'. split; [exact Ha |]. split; [exact Hl |].
  apply Hd. reflexivity.
Defined.

Lemma Entries_Delete_guard_witness :
  Entries_Delete heap ∅ 0 = Some ∅.
Proof.
  destruct (Entries_Delete_guard heap ∅ 0
              (mkEntry 7 "default/www" 900 false false "zone-1" ready_entry) eq_refl)
    as (_ & H & _).
  apply H. discriminate.
Defined.

Lemma Lock_Unlock_witness :
  exists this' s',
    Lock (merge_sort key_le) no_cancel batch (mkLocks [] []) = (this', s', None)
    /\ held (Unlock this' s') = [].
Proof.
  assert (H : exists this' s',
             Lock (merge_sort key_le) no_cancel batch (mkLocks [] []) = (this', s', None)).
  { eexists _, _. vm_compute. reflexivity. }
  destruct H as (this' & s' & H).
  exists this', s'. split; [exact H |].
  exact (proj1 (Lock_Unlock no_cancel _ _ _ _ _ H)).
Defined.

Lemma UpdateStatus_persists_witness :
  s_State (BaseStatus (object (fst (UpdateStatus (controller empty_cache) ready_entry
                                                 STATE_INVALID "no target"))))
  = STATE_INVALID.
Proof.
  apply (UpdateStatus_persists (controller empty_cache) ready_entry STATE_INVALID "no target").
  - reflexivity.
  - reflexivity.
Defined.

Lemma UpdateStatus_idempotent_witness :
  UpdateStatus (controller empty_cache)
               (fst (UpdateStatus (controller empty_cache) ready_entry STATE_INVALID "no target"))
               STATE_INVALID "no target"
  = (fst (UpdateStatus (controller empty_cache) ready_entry STATE_INVALID "no target"),
     (false, None)).
Proof.
  apply (UpdateStatus_idempotent (controller empty_cache) ready_entry STATE_INVALID
           "no target").
  reflexivity.
Defined.

Lemma Setup_without_zone_or_type_witness :
  exists st' this' r,
    Setup 1 (controller empty_cache) ready_entry no_premise None config = Val (st', this', r)
    /\ responsible this' = false
    /\ valid this' = false.
Proof.
  destruct (Setup_without_zone_or_type 1 (controller empty_cache) ready_entry no_premise
              None config)
    as (st' & this' & r & H & Hr & Hv & _).
  - left. reflexivity.
  - exists st', this', r. auto.
Defined.

Lemma Setup_unknown_owner_witness :
  exists this',
    Setup 1 strict_controller owned_entry premise None config
    = Val (strict_controller, this', Failed "unknown owner id 'stranger'")
    /\ s_State (status this') = STATE_STALE
    /\ KeepRecords this' = true.
Proof.
  destruct (Setup_unknown_owner 1 strict_controller strict_controller owned_entry
              (set_responsible false (set_valid false owned_entry)) premise None config
              "unknown owner id 'stranger'")
    as (this' & H & Hs & _ & _ & Hk).
  - vm_compute. reflexivity.
  - vm_compute. reflexivity.
  - exists this'. split; [exact H |]. split; assumption.
Defined.

Lemma Setup_failed_completion_witness :
  Setup 1 (controller empty_cache) referring_entry premise None config
  = Panic "invalid memory address or nil pointer dereference".
Proof.
  destruct (Setup_failed_completion 1 (controller empty_cache) (controller empty_cache)
              (AddRef name (mkObjectName "default" "origin") (controller empty_cache))
              referring_entry
              (upd_status (set_Message (Some "waiting for dns reconciliation"))
                 (upd_status (set_State STATE_PENDING)
                    (set_responsible false (set_valid false referring_entry))))
              premise None config
              ("entry reference " ++ quote "default/origin" ++ " not found"))
    as [H _].
  - vm_compute. reflexivity.
  - vm_compute. reflexivity.
  - reflexivity.
  - reflexivity.
  - vm_compute. reflexivity.
  - apply H. discriminate.
Defined.


Lemma Setup_no_responsible_provider_witness :
  exists st' this',
    Setup 1 (controller empty_cache) new_entry no_premise None short_config
    = Val (st', this', Succeeded)
    /\ s_State (BaseStatus (object this')) = STATE_ERROR
    /\ s_Message (BaseStatus (object this')) = Some "No responsible provider found"
    /\ name ∉ finalizers st'.
Proof.
  destruct (Setup_no_responsible_provider 1 (controller empty_cache) new_entry no_premise
              None short_config)
    as (st' & this' & H & Hs & Hm & _ & _ & _ & _ & Hf).
  - reflexivity.
  - reflexivity.
  - left. reflexivity.
  - vm_compute. discriminate.
  - reflexivity.
  - exists st', this'. split; [exact H |]. split; [exact Hs |]. split; [exact Hm |].
    apply Hf. reflexivity.
Defined.

Lemma validate_targets_blank_witness :
  snd (validate_targets (controller empty_cache) new_entry 0
                        ["1.1.1.1"; "a.example.org"; "  "; "2.2.2.2"] [] [])
  = Some "target 3 must not be empty"
  /\ snd (validate_targets (controller empty_cache) new_entry 0
                           ["1.1.1.1"; nbsp; "2.2.2.2"] [] [])
     = Some "target 2 must not be empty".
Proof.
  split.
  - apply (validate_targets_blank (controller empty_cache) new_entry
             ["1.1.1.1"; "a.example.org"] ["2.2.2.2"] "  ").
    + repeat constructor; discriminate.
    + reflexivity.
  - apply (validate_targets_blank (controller empty_cache) new_entry
             ["1.1.1.1"] ["2.2.2.2"] nbsp).
    + repeat constructor; discriminate.
    + reflexivity.
Defined.

(** The error of the premise is part of a format: with the formatting of
    the examples, a directive in it is carried out. *)
Example no_responsible_provider_format_example :
  exists st' this',
    Setup 1 (controller empty_cache) new_entry no_premise (Some "quota 100%s") short_config
    = Val (st', this', Succeeded)
    /\ s_Message (BaseStatus (object this'))
       = Some "No responsible provider found: quota 100%!s(MISSING)".
Proof. eexists _, _. split; vm_compute; reflexivity. Qed.
